(** * A signaling relay with an SDP sanitizer: [server.js]

    Shallow embedding of the WebSocket signaling server of the WebRTC
    codelab.  The server keeps a [Map] from client ids to sockets, greets
    every new connection, and relays JSON envelopes between clients; for
    offers it inspects the session description first.

    Conventions of the embedding:
    - a JavaScript string is the list of its UTF-16 code units;
    - a JavaScript value is a [value] tree, a number being a binary64
      float and an object the list of its properties in enumeration order;
    - [JSON.parse] and [JSON.stringify] are the boundary of the model: a
      handler receives [option value] ([None]: the parse threw), and a
      send is logged with the value that is handed to [JSON.stringify];
    - the global [connections] map is a [gmap] from ids to socket handles;
    - every call on an external object ([Map.set], [Map.delete], [ws.send],
      [ws.close], [ws.terminate]) is appended to a log, in program order;
    - the helpers of the [sdp] package are written out after the package's
      source, which each definition quotes. *)

From Stdlib Require Import String Ascii NArith ZArith PrimFloat SpecFloat FloatOps.
From stdpp Require Import gmap list.

Local Open Scope N_scope.

(** ** JavaScript strings *)

Module JsString.

(** A string is its sequence of UTF-16 code units. *)
Definition jsstring : Type := list N.

(** Literals: every character of a Rocq string is one code unit. *)
Definition js (s : string) : jsstring :=
  map N_of_ascii (list_ascii_of_string s).

Definition LF : jsstring := [10].
Definition CRLF : jsstring := [13; 10].

Definition eqb (a b : jsstring) : bool := bool_decide (a = b).

(** White space and line terminators, as [String.prototype.trim] strips
    them (ECMA-262, WhiteSpace and LineTerminator). *)
Definition is_space (c : N) : bool :=
  (9 <=? c) && (c <=? 13)
  || (c =? 32) || (c =? 160) || (c =? 5760)
  || (8192 <=? c) && (c <=? 8202)
  || (c =? 8232) || (c =? 8233) || (c =? 8239) || (c =? 8287)
  || (c =? 12288) || (c =? 65279).

Fixpoint trimStart (s : jsstring) : jsstring :=
  match s with
  | c :: t => if is_space c then trimStart t else s
  | [] => []
  end.

Definition trimEnd (s : jsstring) : jsstring := rev (trimStart (rev s)).

(** [s.trim()] *)
Definition trim (s : jsstring) : jsstring := trimEnd (trimStart s).

(** [s.indexOf(p) === 0], that is, [s] starts with [p]. *)
Fixpoint startsWith (p s : jsstring) : bool :=
  match p, s with
  | [], _ => true
  | a :: p', b :: s' => (a =? b) && startsWith p' s'
  | _ :: _, [] => false
  end.

(** [s.substr(n)] for an [n] that is not negative. *)
Definition substr (n : nat) (s : jsstring) : jsstring := drop n s.

(** [s.split(sep)] for a separator that is not empty.  [cur] holds the
    piece being read, reversed; [skip] counts the code units of a
    separator just matched that are still to be passed over. *)
Fixpoint split_go (sep cur s : jsstring) (skip : nat) : list jsstring :=
  match s with
  | [] => [rev cur]
  | c :: t =>
      match skip with
      | S k => split_go sep cur t k
      | O =>
          if startsWith sep s
          then rev cur :: split_go sep [] t (length sep - 1)
          else split_go sep (c :: cur) t O
      end
  end.

Definition split (sep s : jsstring) : list jsstring := split_go sep [] s O.

(** [s.replace(pat, '')] with a string pattern: the first occurrence of
    [pat] is taken out, and a string without one is returned as it is. *)
Fixpoint replace_first (pat s : jsstring) : jsstring :=
  if startsWith pat s then drop (length pat) s
  else match s with
       | [] => []
       | c :: t => c :: replace_first pat t
       end.

(** [arr.includes(x)] on an array of strings. *)
Definition includes (arr : list jsstring) (x : jsstring) : bool :=
  existsb (eqb x) arr.

End JsString.
Export JsString.

(** ** JavaScript values *)

(** Outcome of an expression or statement that may throw. *)
Inductive completion (A : Type) : Type :=
| Normal (a : A)
| Thrown.
Arguments Normal {A} a.
Arguments Thrown {A}.

#[global] Instance completion_ret : MRet completion := @Normal.

#[global] Instance completion_bind : MBind completion := λ A B k c,
  match c with
  | Normal a => k a
  | Thrown => Thrown
  end.

Module JsValue.

(** What [JSON.parse] can return, and [undefined], which reading a
    missing property gives.  An object is the list of its own properties
    in enumeration order. *)
#[local] Set Warnings "-register-all".
Inductive value : Type :=
| VUndefined
| VNull
| VBool (b : bool)
| VNum (x : float)
| VStr (s : jsstring)
| VArr (elems : list value)
| VObj (props : list (jsstring * value)).

(** [ToBoolean]: what [!v] tests. *)
Definition truthy (v : value) : bool :=
  match v with
  | VUndefined | VNull => false
  | VBool b => b
  | VNum x => negb (PrimFloat.eqb x PrimFloat.zero || PrimFloat.is_nan x)
  | VStr s => negb (eqb s [])
  | VArr _ | VObj _ => true
  end.

Fixpoint lookup_prop (k : jsstring) (props : list (jsstring * value)) : value :=
  match props with
  | [] => VUndefined
  | (k', v) :: rest => if eqb k' k then v else lookup_prop k rest
  end.

Fixpoint assign_prop (k : jsstring) (v : value)
    (props : list (jsstring * value)) : list (jsstring * value) :=
  match props with
  | [] => [(k, v)]
  | (k', v') :: rest =>
      if eqb k' k then (k, v) :: rest else (k', v') :: assign_prop k v rest
  end.

(** [d.k], for the names the server reads ([id], [type], [sdp]): none of
    them is a property of a primitive, of an array or of a prototype. *)
Definition get (d : value) (k : jsstring) : completion value :=
  match d with
  | VUndefined | VNull => Thrown
  | VObj props => Normal (lookup_prop k props)
  | VBool _ | VNum _ | VStr _ | VArr _ => Normal VUndefined
  end.

(** [d.k = v] in sloppy mode, for the same names: the write is lost on a
    primitive, and on an array it adds a property that [JSON.stringify]
    leaves out. *)
Definition set (d : value) (k : jsstring) (v : value) : completion value :=
  match d with
  | VUndefined | VNull => Thrown
  | VObj props => Normal (VObj (assign_prop k v props))
  | VBool _ | VNum _ | VStr _ | VArr _ => Normal d
  end.

(** [v === 'lit'] *)
Definition strict_eq_str (v : value) (lit : jsstring) : bool :=
  match v with
  | VStr s => eqb s lit
  | _ => false
  end.

(** [v.replace(pat, '')]: only a string has the method. *)
Definition String_replace (v : value) (pat : jsstring) : completion value :=
  match v with
  | VStr s => Normal (VStr (replace_first pat s))
  | _ => Thrown
  end.

End JsValue.
Export JsValue.

(** ** The [sdp] package *)

Module SDPUtils.

(** The helpers of the npm package [sdp] that the server calls.

    [splitLines(blob)]: [blob.trim().split('\n').map(line => line.trim())] *)
Definition splitLines (blob : jsstring) : list jsstring :=
  map trim (split LF (trim blob)).

(** [splitSections(blob)]:
    [blob.split('\nm=').map((part, index) =>
       (index > 0 ? 'm=' + part : part).trim() + '\r\n')].
    A [blob] that is not a string has no [split] method: [TypeError]. *)
Definition sectionOfPart (index : nat) (part : jsstring) : jsstring :=
  trim (match index with O => part | S _ => js "m=" ++ part end) ++ CRLF.

Definition splitSections (blob : value) : completion (list jsstring) :=
  match blob with
  | VStr s => Normal (imap sectionOfPart (split (LF ++ js "m=") s))
  | _ => Thrown
  end.

(** [matchPrefix(blob, prefix)]:
    [splitLines(blob).filter(line => line.indexOf(prefix) === 0)] *)
Definition matchPrefix (blob prefix : jsstring) : list jsstring :=
  List.filter (startsWith prefix) (splitLines blob).

(** [getKind(mediaSection)]:
    [splitLines(mediaSection)[0].split(' ')[0].substr(2)].
    Both [split]s return at least one element. *)
Definition getKind (mediaSection : jsstring) : jsstring :=
  let lines := splitLines mediaSection in
  let mline := split (js " ") (hd [] lines) in
  substr 2 (hd [] mline).

(** [parseExtmap(line)]: [parts = line.substr(9).split(' ')], and the
    result has [uri: parts[1]], which is [undefined] when the line has no
    second field.  The server reads no other field of the result. *)
Record extmap : Type := { uri : value }.

Definition parseExtmap (line : jsstring) : extmap :=
  let parts := split (js " ") (substr 9 line) in
  {| uri := match parts !! 1%nat with
            | Some u => VStr u
            | None => VUndefined
            end |}.

End SDPUtils.

(** ** The server *)

(** A socket object ([ws], [peer]) is known by its identity. *)
Definition sock : Type := nat.

(** Calls on the [connections] map and on sockets.  [WsSend ws v] is
    [ws.send(JSON.stringify(v))]. *)
Inductive event : Type :=
| MapSet (id : jsstring) (ws : sock)
| MapDelete (id : jsstring)
| WsSend (ws : sock) (payload : value)
| WsClose (ws : sock)
| WsTerminate (ws : sock).

(** The global [connections], and the calls made so far, oldest first. *)
Record state : Type := mkState {
  connections : gmap jsstring sock;
  log : list event
}.

Definition emit (e : event) (st : state) : state :=
  mkState (connections st) (log st ++ [e]).

(** [connections.has(k)] and [connections.get(k)].  Every key of the map is
    a string (an id), and [Map] compares a key with SameValueZero, so a [k]
    that is not a string is not found. *)
Definition Map_has (m : gmap jsstring sock) (k : value) : bool :=
  match k with
  | VStr s => bool_decide (is_Some (m !! s))
  | _ => false
  end.

Definition Map_get (m : gmap jsstring sock) (k : value) : option sock :=
  match k with
  | VStr s => m !! s
  | _ => None
  end.

Definition Map_set (id : jsstring) (ws : sock) (st : state) : state :=
  mkState (<[id := ws]> (connections st)) (log st ++ [MapSet id ws]).

Definition Map_delete (id : jsstring) (st : state) : state :=
  mkState (delete id (connections st)) (log st ++ [MapDelete id]).

Definition ws_send (ws : sock) (payload : value) : state → state :=
  emit (WsSend ws payload).
Definition ws_close (ws : sock) : state → state := emit (WsClose ws).
Definition ws_terminate (ws : sock) : state → state := emit (WsTerminate ws).

Definition hello (id : jsstring) : value :=
  VObj [(js "type", VStr (js "hello")); (js "id", VStr id)].

Definition iceServers : value :=
  VObj [(js "type", VStr (js "iceServers"));
        (js "iceServers",
         VArr [VObj [(js "urls", VStr (js "stun:stun.l.google.com:19302"))]])].

(** [wss.on('connection', ws => ...)], up to the registration of the
    socket's own handlers; [id] is what [generateClientId()] returned. *)
Definition on_connection (id : jsstring) (ws : sock) (st : state) : state :=
  if Map_has (connections st) (VStr id) then ws_close ws st
  else
    let st := Map_set id ws st in
    let st := ws_send ws (hello id) st in
    ws_send ws iceServers st.

(** [ws.on('close', ...)] of the connection registered as [id]. *)
Definition on_close (id : jsstring) (st : state) : state := Map_delete id st.

Definition allowedKinds : list jsstring := [js "audio"; js "video"].

Definition extensionsToFilter : list jsstring :=
  [js "http://tools.ietf.org/html/draft-ietf-avtext-framemarking-07";
   js "http://www.webrtc.org/experiments/rtp-hdrext/video-timing"].

(** [extensionsToFilter.includes(extension.uri)] *)
Definition filtered (u : value) : bool :=
  match u with
  | VStr s => includes extensionsToFilter s
  | _ => false
  end.

(** The body of [extensions.forEach(line => ...)]. *)
Definition filter_line (data : value) (line : jsstring) : completion value :=
  let extension := SDPUtils.parseExtmap line in
  if filtered (SDPUtils.uri extension) then
    sdp ← get data (js "sdp");
    sdp ← String_replace sdp (line ++ CRLF);
    data ← set data (js "sdp") sdp;
    sdp ← get data (js "sdp");
    sdp ← String_replace sdp (line ++ LF);
    set data (js "sdp") sdp
  else Normal data.

Fixpoint forEach (lines : list jsstring) (data : value) : completion value :=
  match lines with
  | [] => Normal data
  | line :: rest => data ← filter_line data line; forEach rest data
  end.

(** How the [try] block ends when it does not throw: it falls through to
    the lookup with the envelope as it is now, or it has returned. *)
Inductive try_end : Type :=
| FallsThrough (data : value)
| Returned.

(** The [for] loop over the media sections. *)
Fixpoint for_sections (ws : sock) (sections : list jsstring) (data : value)
    (st : state) : completion (try_end * state) :=
  match sections with
  | [] => Normal (FallsThrough data, st)
  | section :: rest =>
      let kind := SDPUtils.getKind section in
      if negb (includes allowedKinds kind) then
        Normal (Returned, ws_terminate ws st)
      else
        data ← forEach (SDPUtils.matchPrefix section (js "a=extmap:")) data;
        for_sections ws rest data st
  end.

(** The [try] block: [sections.shift()] drops the session part. *)
Definition try_block (ws : sock) (data : value) (st : state)
  : completion (try_end * state) :=
  sdp ← get data (js "sdp");
  sections ← SDPUtils.splitSections sdp;
  for_sections ws (tail sections) data st.

(** [if (data.type === 'offer') { try { ... } catch (e) { ... } }] *)
Definition inspect_offer (ws : sock) (data : value) (st : state)
  : completion (try_end * state) :=
  type ← get data (js "type");
  if strict_eq_str type (js "offer") then
    match try_block ws data st with
    | Normal r => Normal r
    | Thrown => Normal (Returned, ws_terminate ws st)
    end
  else Normal (FallsThrough data, st).

(** From the lookup of the peer to the end of the handler. *)
Definition forward (id : jsstring) (data : value) (st : state)
  : completion state :=
  dest ← get data (js "id");
  if negb (Map_has (connections st) dest) then Normal st
  else
    let peer := Map_get (connections st) dest in
    data ← set data (js "id") (VStr id);
    match peer with
    | Some peer => Normal (ws_send peer data st)
    | None => Thrown
    end.

(** [ws.on('message', message => ...)] of the connection [ws] registered
    as [id].  [message] is what [JSON.parse] makes of the text received,
    [None] when it throws.  A [Thrown] result is an exception that leaves
    the handler. *)
Definition on_message (id : jsstring) (ws : sock) (message : option value)
    (st : state) : completion state :=
  match message with
  | None => Normal st
  | Some data =>
      dest ← get data (js "id");
      if negb (truthy dest) then Normal st
      else
        r ← inspect_offer ws data st;
        match r with
        | (Returned, st) => Normal st
        | (FallsThrough data, st) => forward id data st
        end
  end.

(** ** Notions the properties are stated with *)

(** The media sections the server inspects: all sections but the first. *)
Definition media_sections (sdp : jsstring) : list jsstring :=
  match SDPUtils.splitSections (VStr sdp) with
  | Normal sections => tail sections
  | Thrown => []
  end.

Definition allowed_kind (section : jsstring) : bool :=
  includes allowedKinds (SDPUtils.getKind section).

(** The [a=extmap:] lines of a section, as the server reads them. *)
Definition extmap_lines (section : jsstring) : list jsstring :=
  SDPUtils.matchPrefix section (js "a=extmap:").

Definition denylisted (line : jsstring) : bool :=
  filtered (SDPUtils.uri (SDPUtils.parseExtmap line)).

(** An id that [uuid.v4()] can return is not the empty string. *)
Definition nonempty_id (id : jsstring) : Prop := id ≠ [].

(** Text made of lines, each followed by the terminator [eol]. *)
Definition text (eol : jsstring) (lines : list string) : jsstring :=
  concat (map (λ l, js l ++ eol) lines).

(** The envelope is an object whose [sdp] is a string. *)
Definition sdp_is_string (data : value) : Prop :=
  ∃ props s, data = VObj props ∧ lookup_prop (js "sdp") props = VStr s.

(** Whether a media section of the description has an [a=extmap:] line
    with a URI on the denylist. *)
Definition has_denylisted_extmap (sdp : jsstring) : bool :=
  existsb (λ section, existsb denylisted (extmap_lines section))
          (media_sections sdp).

(** ** Two clients and some envelopes *)

Module Scenario.

Definition A1 : jsstring := js "A1".
Definition B1 : jsstring := js "B1".
Definition wsA : sock := 1%nat.
Definition wsB : sock := 2%nat.
Definition wsC : sock := 3%nat.

(** Both clients are connected. *)
Definition registered : state :=
  mkState (<[B1 := wsB]> (<[A1 := wsA]> ∅)) [].

Definition offer_to (dest : jsstring) (sdp : jsstring) : value :=
  VObj [(js "id", VStr dest); (js "type", VStr (js "offer"));
        (js "sdp", VStr sdp)].

Definition candidate_to (dest : jsstring) : value :=
  VObj [(js "type", VStr (js "candidate")); (js "id", VStr dest);
        (js "candidate", VStr (js "candidate:1 1 udp 1 192.0.2.1 9 typ host"));
        (js "sdpMLineIndex", VNum 0%float)].

(** An offer with no [sdp] at all. *)
Definition offer_without_sdp : value :=
  VObj [(js "id", VStr B1); (js "type", VStr (js "offer"))].

(** An envelope whose [id] is the given falsy value. *)
Definition answer_with_id (v : value) : value :=
  VObj [(js "id", v); (js "type", VStr (js "answer"))].

(** Audio and video, one denylisted extension in the video section. *)
Definition sdp_two_sections (eol : jsstring) : jsstring :=
  text eol
    ["v=0";
     "m=audio 9 UDP/TLS/RTP/SAVPF 111";
     "a=extmap:1 urn:ietf:params:rtp-hdrext:ssrc-audio-level";
     "m=video 9 UDP/TLS/RTP/SAVPF 96";
     "a=extmap:13 http://www.webrtc.org/experiments/rtp-hdrext/video-timing";
     "a=mid:1"]%string.

Definition sdp_two_sections_filtered (eol : jsstring) : jsstring :=
  text eol
    ["v=0";
     "m=audio 9 UDP/TLS/RTP/SAVPF 111";
     "a=extmap:1 urn:ietf:params:rtp-hdrext:ssrc-audio-level";
     "m=video 9 UDP/TLS/RTP/SAVPF 96";
     "a=mid:1"]%string.

(** The denylisted line ends in a space. *)
Definition sdp_trailing_space : jsstring :=
  text CRLF
    ["v=0";
     "m=video 9 UDP/TLS/RTP/SAVPF 96";
     "a=extmap:13 http://www.webrtc.org/experiments/rtp-hdrext/video-timing ";
     "a=mid:0"]%string.

(** The denylisted line stands in the session part and in the video
    section. *)
Definition sdp_session_level : jsstring :=
  text CRLF
    ["v=0";
     "a=extmap:13 http://www.webrtc.org/experiments/rtp-hdrext/video-timing";
     "m=video 9 UDP/TLS/RTP/SAVPF 96";
     "a=extmap:13 http://www.webrtc.org/experiments/rtp-hdrext/video-timing";
     "a=mid:0"]%string.

Definition sdp_session_level_forwarded : jsstring :=
  text CRLF
    ["v=0";
     "m=video 9 UDP/TLS/RTP/SAVPF 96";
     "a=extmap:13 http://www.webrtc.org/experiments/rtp-hdrext/video-timing";
     "a=mid:0"]%string.

(** A data channel. *)
Definition sdp_datachannel : jsstring :=
  text CRLF
    ["v=0";
     "m=application 9 UDP/DTLS/SCTP webrtc-datachannel";
     "a=sctp-port:5000"]%string.

(** Audio and video, no denylisted extension. *)
Definition sdp_clean : jsstring :=
  text LF
    ["v=0";
     "m=audio 9 UDP/TLS/RTP/SAVPF 111";
     "a=extmap:1 urn:ietf:params:rtp-hdrext:ssrc-audio-level";
     "m=video 9 UDP/TLS/RTP/SAVPF 96";
     "a=extmap:2 urn:ietf:params:rtp-hdrext:toffset"]%string.

End Scenario.

(** ** The JSON texts on the wire *)

(** What [JSON.parse] makes of a number written without a fraction, as a
    sign, an integer coefficient and a power of ten that is not negative:
    the binary64 value nearest to it, ties to even, and an infinity when
    the number is out of range. *)
Definition JSON_number (negative : bool) (coefficient exponent : N) : float :=
  match coefficient with
  | N0 => if negative then neg_zero else zero
  | Npos p =>
      SF2Prim (binary_normalize 53 1024
                 ((if negative then Z.neg p else Z.pos p)
                  * 10 ^ Z.of_N exponent)
                 0 false)
  end.

(** What a peer reads: [JSON.parse(JSON.stringify(v))].  [JSON.stringify]
    writes a number that is not finite as [null] and minus zero as [0],
    and every other number so that it reads back as the same value; it
    leaves out a property whose value is [undefined] and writes [null]
    for such an element of an array.  For [undefined] itself no text is
    written. *)
Fixpoint JSON_reparsed (v : value) : value :=
  match v with
  | VUndefined => VUndefined
  | VNull => VNull
  | VBool b => VBool b
  | VNum x =>
      if negb (PrimFloat.is_finite x) then VNull
      else if PrimFloat.is_zero x then VNum PrimFloat.zero
      else VNum x
  | VStr s => VStr s
  | VArr elems =>
      VArr (map (λ e, match e with
                      | VUndefined => VNull
                      | _ => JSON_reparsed e
                      end) elems)
  | VObj props =>
      VObj ((fix go (ps : list (jsstring * value)) :=
               match ps with
               | [] => []
               | (_, VUndefined) :: rest => go rest
               | (k, e) :: rest => (k, JSON_reparsed e) :: go rest
               end) props)
  end.

(** ** The event loop *)

(** What the runtime delivers to the server: a new connection for which
    [generateClientId()] returned [id]; the close of the socket [ws] that
    was registered as [id]; a message on that socket. *)
Inductive input : Type :=
| Connection (id : jsstring) (ws : sock)
| Close (id : jsstring) (ws : sock)
| Message (id : jsstring) (ws : sock) (message : option value).

(** The handler that runs on an input. *)
Definition handle (i : input) (st : state) : completion state :=
  match i with
  | Connection id ws => Normal (on_connection id ws st)
  | Close id _ => Normal (on_close id st)
  | Message id ws message => on_message id ws message st
  end.

(** The socket a call is made on or stores. *)
Definition event_sock (e : event) : option sock :=
  match e with
  | MapSet _ ws | WsSend ws _ | WsClose ws | WsTerminate ws => Some ws
  | MapDelete _ => None
  end.

(** A socket object the server has not seen yet. *)
Definition fresh (ws : sock) (st : state) : Prop :=
  ∀ e, e ∈ log st → event_sock e ≠ Some ws.

(** Which inputs can come next.  A connection brings a new socket object.
    The [close] and [message] handlers of a socket exist only once the
    connection handler has stored it, since the handler returns before
    installing them when the id is taken; and a socket closes once. *)
Inductive admissible (history : list input) (st : state) : input → Prop :=
| adm_connection id ws :
    fresh ws st → admissible history st (Connection id ws)
| adm_close id ws :
    MapSet id ws ∈ log st → (∀ id', Close id' ws ∉ history) →
    admissible history st (Close id ws)
| adm_message id ws message :
    MapSet id ws ∈ log st → admissible history st (Message id ws message).

(** The states the server goes through, with the inputs handled so far.
    An exception that leaves a handler ends the run. *)
Inductive reachable : list input → state → Prop :=
| reach_start : reachable [] (mkState ∅ [])
| reach_step history st i st' :
    reachable history st → admissible history st i →
    handle i st = Normal st' → reachable (history ++ [i]) st'.

(** The payload of the first [send] on a socket, if there is one. *)
Fixpoint first_send (ws : sock) (events : list event) : option value :=
  match events with
  | [] => None
  | WsSend ws' payload :: rest =>
      if bool_decide (ws' = ws) then Some payload else first_send ws rest
  | _ :: rest => first_send ws rest
  end.

(** ** What the inspection takes out *)

(** A piece of text that the loop over the lines looks for: a line that
    starts with [a=extmap:] and has a denylisted URI, followed by a line
    terminator. *)
Definition removable (piece : jsstring) : Prop :=
  ∃ line,
    startsWith (js "a=extmap:") line = true
    ∧ denylisted line = true
    ∧ (piece = line ++ CRLF ∨ piece = line ++ LF).

(** [cut_down s s']: [s'] is [s] with removable pieces taken out, one
    after the other. *)
Inductive cut_down : jsstring → jsstring → Prop :=
| cut_none s : cut_down s s
| cut_piece before piece after s' :
    removable piece → cut_down (before ++ after) s' →
    cut_down (before ++ piece ++ after) s'.

(** [s.includes(pat)]: the pattern occurs somewhere in the text. *)
Fixpoint contains (pat s : jsstring) : bool :=
  startsWith pat s
  || match s with
     | [] => false
     | _ :: t => contains pat t
     end.

(** ** Descriptions at the edges *)

Module Edge.

(** The session part holds a line that reads [m] followed by the
    denylisted line of the video section, and then the rest of a data
    channel's media line. *)
Definition sdp_spliced : jsstring :=
  text CRLF
    ["v=0";
     "ma=extmap:13 http://www.webrtc.org/experiments/rtp-hdrext/video-timing";
     "=application 9 UDP/DTLS/SCTP webrtc-datachannel";
     "a=sctp-port:5000";
     "m=video 9 UDP/TLS/RTP/SAVPF 96";
     "a=extmap:13 http://www.webrtc.org/experiments/rtp-hdrext/video-timing"]%string.

Definition sdp_spliced_forwarded : jsstring :=
  js "v=0" ++ CRLF ++ js "m"
  ++ text CRLF
       ["=application 9 UDP/DTLS/SCTP webrtc-datachannel";
        "a=sctp-port:5000";
        "m=video 9 UDP/TLS/RTP/SAVPF 96";
        "a=extmap:13 http://www.webrtc.org/experiments/rtp-hdrext/video-timing"]%string.

(** A description that starts with the media line of a data channel. *)
Definition sdp_leading_datachannel : jsstring :=
  text CRLF
    ["m=application 9 UDP/DTLS/SCTP webrtc-datachannel";
     "a=sctp-port:5000"]%string.

(** A candidate for [dest] whose [priority] was written [1e400], which
    [JSON.parse] reads as [Infinity]. *)
Definition candidate_out_of_range (dest : jsstring) : value :=
  VObj [(js "type", VStr (js "candidate")); (js "id", VStr dest);
        (js "priority", VNum (JSON_number false 1 400))].

(** An answer for [dest]. *)
Definition answer_to (dest : jsstring) : value :=
  VObj [(js "type", VStr (js "answer")); (js "id", VStr dest);
        (js "sdp", VStr (js "v=0"))].

End Edge.

(** ** What holds in every state of a run *)

(** Every stored socket was stored by a [set] that is in the log; a
    socket is stored under one id only; no stored socket has closed; a
    socket that has closed had been stored; the first thing sent to a
    socket that was stored is the hello with its id; and nothing is sent
    to a socket that was not stored. *)
Definition consistent (history : list input) (st : state) : Prop :=
  (∀ id ws, connections st !! id = Some ws → MapSet id ws ∈ log st)
  ∧ (∀ id id' ws, MapSet id ws ∈ log st → MapSet id' ws ∈ log st → id = id')
  ∧ (∀ id ws, connections st !! id = Some ws → ∀ id', Close id' ws ∉ history)
  ∧ (∀ id ws, Close id ws ∈ history → MapSet id ws ∈ log st)
  ∧ (∀ id ws, MapSet id ws ∈ log st →
              first_send ws (log st) = Some (hello id))
  ∧ (∀ ws payload, first_send ws (log st) = Some payload →
                   ∃ id, MapSet id ws ∈ log st).

(** ** A short run *)

Module Run.

Import Scenario.

(** A1 and B1 connect, then A1 closes. *)
Definition history : list input :=
  [Connection A1 wsA; Connection B1 wsB; Close A1 wsA].

Definition after_close : state :=
  on_close A1 (on_connection B1 wsB (on_connection A1 wsA (mkState ∅ []))).

End Run.

(** ** Properties of strings *)

Section Strings.

(** [split] returns at least one piece, so that reading element 0 of its
    result is defined. *)
Lemma split_go_nonempty sep cur s skip : split_go sep cur s skip ≠ [].
Proof.
  revert cur skip. induction s as [|c t IH]; intros cur skip; simpl; [done|].
  destruct skip; [|apply IH]. destruct (startsWith sep (c :: t)); [done|apply IH].
Qed.

Lemma split_nonempty sep s : split sep s ≠ [].
Proof. apply split_go_nonempty. Qed.

Lemma splitLines_nonempty blob : SDPUtils.splitLines blob ≠ [].
Proof.
  unfold SDPUtils.splitLines. intros H. apply fmap_nil_inv in H.
  by apply split_nonempty in H.
Qed.

(** A text in which the pattern does not occur is returned as it is. *)
Lemma replace_first_absent pat s :
  (∀ n, startsWith pat (drop n s) = false) → replace_first pat s = s.
Proof.
  induction s as [|c t IH]; intros Habs.
  - change (replace_first pat [])
      with (if startsWith pat [] then drop (length pat) [] else @nil N).
    destruct (startsWith pat []); [apply drop_nil|done].
  - change (replace_first pat (c :: t))
      with (if startsWith pat (c :: t) then drop (length pat) (c :: t)
            else c :: replace_first pat t).
    pose proof (Habs 0%nat) as H0. rewrite drop_0 in H0. rewrite H0.
    f_equal. apply IH. intros n. apply (Habs (S n)).
Qed.

End Strings.

(** ** Properties of objects *)

Section Props.

Implicit Types (k : jsstring) (v : value) (props : list (jsstring * value)).

Lemma eqb_eq (a b : jsstring) : eqb a b = true ↔ a = b.
Proof. unfold eqb. apply bool_decide_eq_true. Qed.

Lemma eqb_neq (a b : jsstring) : eqb a b = false ↔ a ≠ b.
Proof. unfold eqb. apply bool_decide_eq_false. Qed.

Lemma lookup_assign_eq k v props :
  lookup_prop k (assign_prop k v props) = v.
Proof.
  induction props as [|[k' v'] rest IH]; simpl.
  - replace (eqb k k) with true; [done|]. symmetry. by apply eqb_eq.
  - destruct (eqb k' k) eqn:E; simpl.
    + replace (eqb k k) with true; [done|]. symmetry. by apply eqb_eq.
    + by rewrite E.
Qed.

Lemma lookup_assign_ne k k' v props :
  k ≠ k' → lookup_prop k (assign_prop k' v props) = lookup_prop k props.
Proof.
  intros Hne. induction props as [|[k0 v0] rest IH]; simpl.
  - replace (eqb k' k) with false; [done|].
    symmetry. apply eqb_neq. congruence.
  - destruct (eqb k0 k') eqn:E; simpl.
    + apply eqb_eq in E as ->.
      replace (eqb k' k) with false; [done|].
      symmetry. apply eqb_neq. congruence.
    + destruct (eqb k0 k); [done|]. apply IH.
Qed.

(** Writing to a property that exists changes its value where it stands
    and nothing else. *)
Lemma assign_prop_in_place k v props :
  lookup_prop k props ≠ VUndefined →
  ∃ before old after,
    props = before ++ (k, old) :: after
    ∧ Forall (λ p, p.1 ≠ k) before
    ∧ lookup_prop k props = old
    ∧ assign_prop k v props = before ++ (k, v) :: after.
Proof.
  induction props as [|[k' v'] rest IH]; simpl; [done|].
  destruct (eqb k' k) eqn:E.
  - apply eqb_eq in E as ->. intros _. by exists [], v', rest.
  - intros Hdef. destruct (IH Hdef) as (before & old & after & -> & Hb & Hl & Ha).
    exists ((k', v') :: before), old, after. split_and!; simpl; try done.
    + constructor; [|done]. simpl. by apply eqb_neq.
    + by rewrite Ha.
Qed.

(** Writing the value a property already has changes nothing. *)
Lemma assign_prop_same k props :
  lookup_prop k props ≠ VUndefined →
  assign_prop k (lookup_prop k props) props = props.
Proof.
  induction props as [|[k' v'] rest IH]; simpl; [done|].
  destruct (eqb k' k) eqn:E.
  - by apply eqb_eq in E as ->.
  - intros Hdef. by rewrite IH.
Qed.

Lemma lookup_prop_absent k props :
  lookup_prop k (List.filter (λ p, negb (eqb p.1 k)) props) = VUndefined.
Proof.
  induction props as [|[k' v'] rest IH]; simpl; [done|].
  destruct (eqb k' k) eqn:E; simpl; [done|]. by rewrite E.
Qed.

(** Only an object has a truthy [id]. *)
Lemma get_truthy_obj (data : value) k v :
  get data k = Normal v → truthy v = true →
  ∃ props, data = VObj props ∧ lookup_prop k props = v.
Proof.
  destruct data; simpl; intros [= <-]; try discriminate. eauto.
Qed.

End Props.

(** ** The inspection of an offer *)

Arguments js : simpl never.
Arguments eqb : simpl never.
Arguments includes : simpl never.
Arguments truthy : simpl never.

Section Sanitizer.

Implicit Types (data : value) (line section : jsstring) (st : state).

Lemma sdp_neq_id : js "id" ≠ js "sdp".
Proof. discriminate. Qed.

(** A line of the loop writes to [sdp] only. *)
Lemma filter_line_frame data line data' k :
  filter_line data line = Normal data' → k ≠ js "sdp" →
  get data' k = get data k.
Proof.
  unfold filter_line. destruct (filtered _); [|by intros [= <-]].
  destruct data as [| | | | |elems|props]; simpl; try discriminate.
  destruct (lookup_prop (js "sdp") props) eqn:Hsdp; simpl; try discriminate.
  rewrite lookup_assign_eq. simpl. intros [= <-] Hk. simpl.
  by rewrite !lookup_assign_ne.
Qed.

Lemma forEach_frame lines data data' k :
  forEach lines data = Normal data' → k ≠ js "sdp" →
  get data' k = get data k.
Proof.
  revert data. induction lines as [|line rest IH]; simpl; intros data.
  - by intros [= <-].
  - destruct (filter_line data line) as [data1|] eqn:Hline; simpl; [|done].
    intros Hrest Hk. rewrite (IH _ Hrest Hk). by eapply filter_line_frame.
Qed.

(** Lines that are not on the denylist leave the envelope as it is. *)
Lemma forEach_clean lines data :
  Forall (λ line, denylisted line = false) lines →
  forEach lines data = Normal data.
Proof.
  induction 1 as [|line rest Hline _ IH]; simpl; [done|].
  unfold filter_line. unfold denylisted in Hline. by rewrite Hline.
Qed.

(** An object whose [sdp] is a string stays one, and the loop over its
    lines does not throw. *)
Lemma filter_line_total data line :
  sdp_is_string data →
  ∃ data', filter_line data line = Normal data' ∧ sdp_is_string data'.
Proof.
  intros (props & s & -> & Hs). unfold filter_line.
  destruct (filtered _); [|eexists; split; [done|by exists props, s]].
  simpl. rewrite Hs. simpl. rewrite lookup_assign_eq. simpl.
  eexists; split; [done|]. eexists _, _. split; [done|].
  apply lookup_assign_eq.
Qed.

Lemma forEach_total lines data :
  sdp_is_string data →
  ∃ data', forEach lines data = Normal data' ∧ sdp_is_string data'.
Proof.
  revert data. induction lines as [|line rest IH]; simpl; intros data Hd.
  - by exists data.
  - destruct (filter_line_total data line Hd) as (data1 & -> & Hd1).
    simpl. by apply IH.
Qed.

(** The loop over the sections ends in one of two ways: at the first
    section of a kind that is not allowed, with the socket terminated; or
    after the last section, all kinds allowed, nothing called. *)
Lemma for_sections_inv ws sections data st r :
  for_sections ws sections data st = Normal r →
  (r = (Returned, ws_terminate ws st)
     ∧ Exists (λ s, allowed_kind s = false) sections)
  ∨ (∃ data', r = (FallsThrough data', st)
       ∧ Forall (λ s, allowed_kind s = true) sections
       ∧ ∀ k, k ≠ js "sdp" → get data' k = get data k).
Proof.
  revert data. induction sections as [|section rest IH]; simpl; intros data.
  - intros [= <-]. right. by exists data.
  - destruct (includes allowedKinds (SDPUtils.getKind section)) eqn:Hkind;
      simpl.
    + destruct (forEach _ data) as [data1|] eqn:Hlines; simpl; [|done].
      intros Hrest. destruct (IH _ Hrest) as [[-> Hbad]|(data' & -> & Hok & Hfr)].
      * left. split; [done|]. by apply Exists_cons_tl.
      * right. exists data'. split_and!; [done|by constructor|].
        intros k Hk. rewrite (Hfr k Hk). by eapply forEach_frame.
    + intros [= <-]. left. split; [done|]. by apply Exists_cons_hd.
Qed.

Lemma for_sections_total ws sections data st :
  sdp_is_string data → ∃ r, for_sections ws sections data st = Normal r.
Proof.
  revert data. induction sections as [|section rest IH]; simpl; intros data Hd.
  - eauto.
  - destruct (includes allowedKinds _); simpl; [|eauto].
    destruct (forEach_total (SDPUtils.matchPrefix section (js "a=extmap:"))
                data Hd) as (data1 & -> & Hd1).
    simpl. by apply IH.
Qed.

Lemma for_sections_clean ws sections data st :
  Forall (λ s, allowed_kind s = true
               ∧ Forall (λ line, denylisted line = false) (extmap_lines s))
         sections →
  for_sections ws sections data st = Normal (FallsThrough data, st).
Proof.
  induction 1 as [|section rest [Hkind Hlines] _ IH]; simpl; [done|].
  unfold allowed_kind in Hkind. rewrite Hkind. simpl.
  unfold extmap_lines in Hlines. by rewrite (forEach_clean _ _ Hlines).
Qed.

(** On a string the [try] block is the loop over the media sections. *)
Lemma try_block_string ws data s st :
  get data (js "sdp") = Normal (VStr s) →
  try_block ws data st = for_sections ws (media_sections s) data st.
Proof. unfold try_block. by intros ->. Qed.

(** The [try] block throws exactly when [sdp] is not a string. *)
Lemma try_block_throws props ws st :
  try_block ws (VObj props) st = Thrown
  ↔ ∀ s, lookup_prop (js "sdp") props ≠ VStr s.
Proof.
  split.
  - intros Hthrown s Hs.
    rewrite (try_block_string _ _ s) in Hthrown; [|simpl; by rewrite Hs].
    destruct (for_sections_total ws (media_sections s) (VObj props) st)
      as [r Hr]; [by exists props, s|].
    by rewrite Hr in Hthrown.
  - intros Hnot. unfold try_block. simpl get.
    destruct (lookup_prop (js "sdp") props) eqn:Hs; try done.
    by destruct (Hnot s).
Qed.

(** Anything but an offer goes to the lookup untouched. *)
Lemma inspect_offer_other ws data type st :
  get data (js "type") = Normal type →
  strict_eq_str type (js "offer") = false →
  inspect_offer ws data st = Normal (FallsThrough data, st).
Proof. unfold inspect_offer. intros -> Hty. simpl. by rewrite Hty. Qed.

(** What reaches the lookup differs from what came in by [sdp] at most,
    and no call has been made. *)
Lemma inspect_offer_falls_through ws data st data' st' :
  inspect_offer ws data st = Normal (FallsThrough data', st') →
  st' = st ∧ ∀ k, k ≠ js "sdp" → get data' k = get data k.
Proof.
  unfold inspect_offer.
  destruct (get data (js "type")) as [type|]; simpl; [|done].
  destruct (strict_eq_str type (js "offer")); [|by intros [= <- <-]].
  destruct (try_block ws data st) as [r|] eqn:Htry; [|done].
  intros [= ->]. unfold try_block in Htry.
  destruct (get data (js "sdp")) as [sdp|]; simpl in Htry; [|done].
  destruct (SDPUtils.splitSections sdp) as [sections|]; simpl in Htry; [|done].
  apply for_sections_inv in Htry as [[[=] _]|(d & [= <- <-] & _ & Hfr)].
  done.
Qed.

(** The inspection itself never throws on an object: it lets the
    envelope through or it has terminated the sender. *)
Lemma inspect_offer_outcome ws props st :
  inspect_offer ws (VObj props) st = Normal (Returned, ws_terminate ws st)
  ∨ ∃ data', inspect_offer ws (VObj props) st = Normal (FallsThrough data', st).
Proof.
  unfold inspect_offer. simpl.
  destruct (strict_eq_str _ _); [|right; eauto].
  destruct (try_block ws (VObj props) st) as [r|] eqn:Htry; [|by left].
  unfold try_block in Htry. simpl in Htry.
  destruct (SDPUtils.splitSections _) as [sections|]; simpl in Htry; [|done].
  apply for_sections_inv in Htry as [[-> _]|(d & -> & _)]; [by left|right; eauto].
Qed.

End Sanitizer.

(** ** The scenario of the specification, run *)

Section Runs.

Import Scenario.

(** A sends B an offer with one denylisted line; B gets it from A with
    that line gone, with either line terminator. *)
Example scenario_crlf :
  on_message A1 wsA (Some (offer_to B1 (sdp_two_sections CRLF))) registered
  = Normal (mkState (connections registered)
              [WsSend wsB (offer_to A1 (sdp_two_sections_filtered CRLF))]).
Proof. vm_compute. reflexivity. Qed.

Example scenario_lf :
  on_message A1 wsA (Some (offer_to B1 (sdp_two_sections LF))) registered
  = Normal (mkState (connections registered)
              [WsSend wsB (offer_to A1 (sdp_two_sections_filtered LF))]).
Proof. vm_compute. reflexivity. Qed.

(** The line of the session part is the first occurrence of the text, so
    it is the one taken out; the line of the video section stays. *)
Example session_level_line_removed_instead :
  has_denylisted_extmap sdp_session_level = true
  ∧ on_message A1 wsA (Some (offer_to B1 sdp_session_level)) registered
    = Normal (mkState (connections registered)
                [WsSend wsB (offer_to A1 sdp_session_level_forwarded)])
  ∧ has_denylisted_extmap sdp_session_level_forwarded = true.
Proof. vm_compute. done. Qed.

(** A text that is [null] leaves the handler by an exception. *)
Example null_message_throws :
  on_message A1 wsA (Some VNull) registered = Thrown.
Proof. reflexivity. Qed.

End Runs.

(** ** Registration *)

Section Registration.

Implicit Types (id : jsstring) (ws : sock) (st : state).

(** C7.  A connection whose id is free is stored in the registry first;
    then exactly two messages are sent to it, in this order: the hello,
    [{type: 'hello', id}], with its id, and the ICE servers,
    [{type: 'iceServers', iceServers: [{urls: ...}]}]. *)
Theorem greeting_after_registration id ws st :
  connections st !! id = None →
  on_connection id ws st
  = mkState (<[id := ws]> (connections st))
      (log st ++ [MapSet id ws;
                  WsSend ws (VObj [(js "type", VStr (js "hello"));
                                   (js "id", VStr id)]);
                  WsSend ws
                    (VObj [(js "type", VStr (js "iceServers"));
                           (js "iceServers",
                            VArr [VObj [(js "urls",
                                         VStr (js "stun:stun.l.google.com:19302"))]])])]).
Proof.
  intros Hfree. unfold on_connection, Map_has. rewrite Hfree.
  rewrite bool_decide_eq_false_2; [|by intros [? ?]].
  unfold ws_send, emit, Map_set, hello. simpl. f_equal.
  by rewrite <- !app_assoc.
Qed.

(** C4, as the code has it.  A connection whose id is taken leaves the
    registry as it is, and the one call made is [ws.close()], which opens
    the closing handshake; nothing is sent to the socket. *)
Theorem duplicate_id_closed id ws st :
  is_Some (connections st !! id) →
  on_connection id ws st
  = mkState (connections st) (log st ++ [WsClose ws]).
Proof.
  intros Htaken. unfold on_connection, Map_has.
  by rewrite bool_decide_eq_true_2.
Qed.

(** Closing removes the entry, and removing twice is removing once. *)
Lemma on_close_removes id st : connections (on_close id st) !! id = None.
Proof. apply lookup_delete_eq. Qed.

Lemma on_close_idempotent id st :
  connections (on_close id (on_close id st)) = connections (on_close id st).
Proof. simpl. apply delete_delete_eq. Qed.

End Registration.

(** ** Routing *)

Section Routing.

Implicit Types (id dest : jsstring) (ws : sock) (data : value) (st : state).

Lemma Map_has_lookup (m : gmap jsstring sock) dest ws :
  m !! dest = Some ws → Map_has m (VStr dest) = true.
Proof. intros H. unfold Map_has. apply bool_decide_eq_true_2. by rewrite H. Qed.

Lemma nonempty_truthy dest : nonempty_id dest → truthy (VStr dest) = true.
Proof.
  intros Hne. unfold truthy. apply negb_true_iff. by apply eqb_neq.
Qed.

(** An envelope that reaches the lookup with a destination that resolves
    is sent to the peer, stamped with the sender's id. *)
Lemma forward_found id props dest peer st :
  lookup_prop (js "id") props = VStr dest →
  connections st !! dest = Some peer →
  forward id (VObj props) st
  = Normal (mkState (connections st)
              (log st ++ [WsSend peer
                            (VObj (assign_prop (js "id") (VStr id) props))])).
Proof.
  intros Hid Hpeer. unfold forward. simpl get. rewrite Hid. simpl.
  rewrite bool_decide_eq_true_2; [|by rewrite Hpeer]. simpl. by rewrite Hpeer.
Qed.

Lemma forward_missing id data (dest : value) st :
  get data (js "id") = Normal dest →
  Map_has (connections st) dest = false →
  forward id data st = Normal st.
Proof. intros Hid Hmiss. unfold forward. rewrite Hid. simpl. by rewrite Hmiss. Qed.

(** C3, as the code has it.  For an envelope that is not an offer, sent
    by [idA] to a destination that resolves to [wsB], what is handed to
    [JSON.stringify] for [wsB] is the parsed envelope with [id] set to
    [idA] where it stood: the properties before and after it keep their
    names, their places and their parsed values. *)
Theorem non_offer_relayed_with_origin idA wsA wsB data dest type st :
  get data (js "id") = Normal (VStr dest) → nonempty_id dest →
  get data (js "type") = Normal type →
  strict_eq_str type (js "offer") = false →
  connections st !! dest = Some wsB →
  ∃ before after,
    data = VObj (before ++ (js "id", VStr dest) :: after)
    ∧ Forall (λ p, p.1 ≠ js "id") before
    ∧ on_message idA wsA (Some data) st
      = Normal (mkState (connections st)
                  (log st ++ [WsSend wsB
                     (VObj (before ++ (js "id", VStr idA) :: after))])).
Proof.
  intros Hid Hne Hty Hnot Hpeer.
  destruct (get_truthy_obj _ _ _ Hid (nonempty_truthy _ Hne))
    as (props & -> & Hlook).
  destruct (assign_prop_in_place (js "id") (VStr idA) props)
    as (before & old & after & Hprops & Hbefore & Hold & Hassign).
  { by rewrite Hlook. }
  rewrite Hlook in Hold. subst old.
  exists before, after. split_and!; [by rewrite Hprops|done|].
  unfold on_message. rewrite Hid. simpl. rewrite (nonempty_truthy _ Hne).
  simpl. rewrite (inspect_offer_other _ _ _ _ Hty Hnot). simpl.
  rewrite (forward_found _ _ _ _ _ Hlook Hpeer). by rewrite Hassign.
Qed.

(** C6.  An envelope whose destination is not in the registry is never
    forwarded and the registry stays as it is; when it reaches the
    lookup, that is, when it is not an offer that the inspection
    rejected, no call at all is made: nothing is sent or kept, and the
    sender's socket is left alone. *)
Theorem unknown_destination_dropped id ws data (dest : value) st :
  get data (js "id") = Normal dest →
  Map_has (connections st) dest = false →
  ∃ st',
    on_message id ws (Some data) st = Normal st'
    ∧ connections st' = connections st
    ∧ (∀ peer payload, WsSend peer payload ∈ log st' →
                       WsSend peer payload ∈ log st)
    ∧ ((∃ data', inspect_offer ws data st = Normal (FallsThrough data', st))
       → st' = st).
Proof.
  intros Hid Hmiss. unfold on_message. rewrite Hid. simpl.
  destruct (truthy dest) eqn:Htruthy; simpl; [|by exists st].
  destruct (get_truthy_obj _ _ _ Hid Htruthy) as (props & -> & Hlook).
  destruct (inspect_offer_outcome ws props st) as [Hrej|[data' Hpass]].
  - rewrite Hrej. simpl. eexists. split_and!; [done|done| |].
    + intros peer payload [Hin|Hin%list_elem_of_singleton]%elem_of_app;
        [done|discriminate].
    + intros [data' Hpass]. by rewrite Hpass in Hrej.
  - rewrite Hpass. simpl.
    destruct (inspect_offer_falls_through _ _ _ _ _ Hpass) as [_ Hfr].
    rewrite (forward_missing id data' dest st); [by exists st| |done].
    rewrite Hfr; [done|apply sdp_neq_id].
Qed.

(** C9.  An envelope whose [id] is falsy (the empty string, 0, [false],
    [null]) is discarded as the same envelope without [id] is: nothing is
    inspected, looked up or sent, and the sender stays connected. *)
Theorem falsy_id_discarded id ws props st :
  In (js "id") (map fst props) →
  truthy (lookup_prop (js "id") props) = false →
  on_message id ws (Some (VObj props)) st = Normal st
  ∧ on_message id ws
      (Some (VObj (List.filter (λ p, negb (eqb p.1 (js "id"))) props))) st
    = on_message id ws (Some (VObj props)) st.
Proof.
  intros _ Hfalsy. unfold on_message. simpl get.
  rewrite lookup_prop_absent. simpl. by rewrite Hfalsy.
Qed.

(** C10, as the code has it.  An envelope that a registered connection
    addresses to its own id, and that is not an offer rejected by the
    inspection, is sent back on the sender's own socket, its [id] being
    the sender's id. *)
Theorem self_addressed_routed_back id ws data data' st :
  connections st !! id = Some ws → nonempty_id id →
  get data (js "id") = Normal (VStr id) →
  inspect_offer ws data st = Normal (FallsThrough data', st) →
  get data' (js "id") = Normal (VStr id)
  ∧ on_message id ws (Some data) st
    = Normal (mkState (connections st) (log st ++ [WsSend ws data'])).
Proof.
  intros Hreg Hne Hid Hpass.
  destruct (inspect_offer_falls_through _ _ _ _ _ Hpass) as [_ Hfr].
  assert (get data' (js "id") = Normal (VStr id)) as Hid'.
  { rewrite Hfr; [done|apply sdp_neq_id]. }
  split; [done|].
  destruct (get_truthy_obj _ _ _ Hid' (nonempty_truthy _ Hne))
    as (props' & -> & Hlook).
  unfold on_message. rewrite Hid. simpl. rewrite (nonempty_truthy _ Hne).
  simpl. rewrite Hpass. simpl.
  rewrite (forward_found _ _ _ _ _ Hlook Hreg).
  rewrite <- Hlook. rewrite assign_prop_same; [done|by rewrite Hlook].
Qed.

End Routing.

(** ** Offers *)

Section Offers.

Import Scenario.
Implicit Types (id dest sdp : jsstring) (ws : sock) (data : value) (st : state).

(** An offer goes through the [try] block, and what the block throws is
    caught with the sender terminated. *)
Lemma inspect_offer_offer ws data st :
  get data (js "type") = Normal (VStr (js "offer")) →
  inspect_offer ws data st
  = match try_block ws data st with
    | Normal r => Normal r
    | Thrown => Normal (Returned, ws_terminate ws st)
    end.
Proof. unfold inspect_offer. intros ->. reflexivity. Qed.

(** The inspection stops at a section whose kind is not allowed. *)
Lemma inspect_offer_disallowed ws data sdp st :
  get data (js "type") = Normal (VStr (js "offer")) →
  get data (js "sdp") = Normal (VStr sdp) →
  Exists (λ section, allowed_kind section = false) (media_sections sdp) →
  inspect_offer ws data st = Normal (Returned, ws_terminate ws st).
Proof.
  intros Hty Hsdp Hbad.
  rewrite (inspect_offer_offer _ _ _ Hty), (try_block_string _ _ _ _ Hsdp).
  destruct (for_sections ws (media_sections sdp) data st) as [r|] eqn:Hloop;
    [|done].
  apply for_sections_inv in Hloop as [[-> _]|(data' & _ & Hok & _)]; [done|].
  exfalso. apply Exists_exists in Hbad as (section & Hin & Hkind).
  rewrite Forall_forall in Hok. specialize (Hok _ Hin). congruence.
Qed.

(** C2.  An offer with a media section whose kind is neither audio nor
    video gets its sender terminated by [ws.terminate()], and that is the
    only call made: nothing is sent to any peer. *)
Theorem disallowed_kind_terminates_sender id ws data (dest : value) sdp st :
  get data (js "id") = Normal dest → truthy dest = true →
  get data (js "type") = Normal (VStr (js "offer")) →
  get data (js "sdp") = Normal (VStr sdp) →
  Exists (λ section, allowed_kind section = false) (media_sections sdp) →
  on_message id ws (Some data) st
  = Normal (mkState (connections st) (log st ++ [WsTerminate ws])).
Proof.
  intros Hid Htruthy Hty Hsdp Hbad.
  unfold on_message. rewrite Hid. simpl. rewrite Htruthy. simpl.
  by rewrite (inspect_offer_disallowed _ _ _ _ Hty Hsdp Hbad).
Qed.

(** Whatever its [id], an offer with such a section is not sent to
    anyone: it is dropped, with or without the sender terminated. *)
Lemma disallowed_kind_never_delivered id ws props sdp st :
  lookup_prop (js "type") props = VStr (js "offer") →
  lookup_prop (js "sdp") props = VStr sdp →
  Exists (λ section, allowed_kind section = false) (media_sections sdp) →
  on_message id ws (Some (VObj props)) st
  = Normal (if truthy (lookup_prop (js "id") props)
            then mkState (connections st) (log st ++ [WsTerminate ws])
            else st).
Proof.
  intros Hty Hsdp Hbad. unfold on_message. simpl get. simpl.
  destruct (truthy _); simpl; [|done].
  rewrite (inspect_offer_disallowed _ _ sdp); simpl; by rewrite ?Hty, ?Hsdp.
Qed.

(** C5.  An offer on which the inspection throws gets its sender
    terminated and is dropped: the catch makes the one call
    [ws.terminate()], and nothing is sent. *)
Theorem parse_failure_terminates_sender id ws data (dest : value) st :
  get data (js "id") = Normal dest → truthy dest = true →
  get data (js "type") = Normal (VStr (js "offer")) →
  try_block ws data st = Thrown →
  on_message id ws (Some data) st
  = Normal (mkState (connections st) (log st ++ [WsTerminate ws])).
Proof.
  intros Hid Htruthy Hty Hthrown.
  unfold on_message. rewrite Hid. simpl. rewrite Htruthy. simpl.
  by rewrite (inspect_offer_offer _ _ _ Hty), Hthrown.
Qed.

(** C8.  An offer whose media sections are all audio or video and have no
    [a=extmap:] line with a denylisted URI passes the inspection as it
    is, and when its destination resolves the peer gets it with the same
    [sdp], only [id] being rewritten. *)
Theorem clean_offer_forwarded_verbatim idA wsA wsB data dest sdp st :
  get data (js "id") = Normal (VStr dest) → nonempty_id dest →
  get data (js "type") = Normal (VStr (js "offer")) →
  get data (js "sdp") = Normal (VStr sdp) →
  Forall (λ section,
            allowed_kind section = true
            ∧ Forall (λ line, denylisted line = false) (extmap_lines section))
         (media_sections sdp) →
  connections st !! dest = Some wsB →
  ∃ forwarded,
    set data (js "id") (VStr idA) = Normal forwarded
    ∧ get forwarded (js "sdp") = Normal (VStr sdp)
    ∧ on_message idA wsA (Some data) st
      = Normal (mkState (connections st) (log st ++ [WsSend wsB forwarded])).
Proof.
  intros Hid Hne Hty Hsdp Hclean Hpeer.
  destruct (get_truthy_obj _ _ _ Hid (nonempty_truthy _ Hne))
    as (props & -> & Hlook).
  eexists. split_and!; [done| |].
  - simpl. rewrite lookup_assign_ne; [done|]. intros E. by apply sdp_neq_id.
  - unfold on_message. rewrite Hid. simpl. rewrite (nonempty_truthy _ Hne).
    simpl.
    rewrite (inspect_offer_offer _ _ _ Hty), (try_block_string _ _ _ _ Hsdp).
    rewrite (for_sections_clean _ _ _ _ Hclean). simpl.
    by rewrite (forward_found _ _ _ _ _ Hlook Hpeer).
Qed.

(** C1, where the code fails it.  The video section has a denylisted
    [a=extmap:] line that ends in a space.  The line is read without the
    space, so the text looked for is not in the description, and the
    offer is forwarded with the line still in it. *)
Theorem denylisted_line_with_trailing_space_forwarded :
  has_denylisted_extmap sdp_trailing_space = true
  ∧ on_message A1 wsA (Some (offer_to B1 sdp_trailing_space)) registered
    = Normal (mkState (connections registered)
                [WsSend wsB (offer_to A1 sdp_trailing_space)]).
Proof. vm_compute. done. Qed.

End Offers.

(** ** Instances and counterexamples *)

Section Instances.

Import Scenario.

Lemma greeting_after_registration_witness :
  on_connection A1 wsA (mkState ∅ [])
  = mkState (<[A1 := wsA]> ∅)
      [MapSet A1 wsA;
       WsSend wsA (VObj [(js "type", VStr (js "hello")); (js "id", VStr A1)]);
       WsSend wsA
         (VObj [(js "type", VStr (js "iceServers"));
                (js "iceServers",
                 VArr [VObj [(js "urls",
                              VStr (js "stun:stun.l.google.com:19302"))]])])].
Proof. apply (greeting_after_registration A1 wsA (mkState ∅ [])). reflexivity. Defined.

Lemma duplicate_id_closed_witness :
  on_connection A1 wsC registered
  = mkState (connections registered) [WsClose wsC].
Proof.
  apply (duplicate_id_closed A1 wsC registered). exists wsA. reflexivity.
Defined.

(** C4, as the specification states it, fails: the id [A1] is taken,
    and the new socket is not terminated but closed. *)
Lemma duplicate_id_not_terminated :
  is_Some (connections registered !! A1)
  ∧ log (on_connection A1 wsC registered) = [WsClose wsC]
  ∧ on_connection A1 wsC registered
    ≠ mkState (connections registered) (log registered ++ [WsTerminate wsC]).
Proof.
  split_and!; [by exists wsA|reflexivity|].
  intros H. apply (f_equal log) in H. discriminate H.
Qed.

Lemma non_offer_relayed_with_origin_witness :
  ∃ before after,
    candidate_to B1 = VObj (before ++ (js "id", VStr B1) :: after)
    ∧ Forall (λ p, p.1 ≠ js "id") before
    ∧ on_message A1 wsA (Some (candidate_to B1)) registered
      = Normal (mkState (connections registered)
                  (log registered ++ [WsSend wsB
                     (VObj (before ++ (js "id", VStr A1) :: after))])).
Proof.
  apply (non_offer_relayed_with_origin A1 wsA wsB (candidate_to B1) B1
           (VStr (js "candidate")) registered);
    [reflexivity|discriminate|reflexivity|reflexivity|reflexivity].
Defined.

Lemma unknown_destination_dropped_witness :
  ∃ st',
    on_message A1 wsA (Some (candidate_to (js "C1"))) registered = Normal st'
    ∧ connections st' = connections registered
    ∧ (∀ peer payload, WsSend peer payload ∈ log st' →
                       WsSend peer payload ∈ log registered)
    ∧ ((∃ data', inspect_offer wsA (candidate_to (js "C1")) registered
                 = Normal (FallsThrough data', registered))
       → st' = registered).
Proof.
  apply (unknown_destination_dropped A1 wsA (candidate_to (js "C1"))
           (VStr (js "C1")) registered); reflexivity.
Defined.

Lemma falsy_id_discarded_witness :
  (on_message A1 wsA (Some (answer_with_id (VStr []))) registered
   = Normal registered)
  ∧ (on_message A1 wsA (Some (answer_with_id (VNum 0%float))) registered
     = Normal registered)
  ∧ (on_message A1 wsA (Some (answer_with_id (VBool false))) registered
     = Normal registered)
  ∧ (on_message A1 wsA (Some (answer_with_id VNull)) registered
     = Normal registered).
Proof.
  pose proof (λ v, falsy_id_discarded A1 wsA
                     [(js "id", v); (js "type", VStr (js "answer"))]
                     registered (or_introl eq_refl)) as H.
  split_and!; apply H; reflexivity.
Defined.

Lemma self_addressed_routed_back_witness :
  get (candidate_to A1) (js "id") = Normal (VStr A1)
  ∧ on_message A1 wsA (Some (candidate_to A1)) registered
    = Normal (mkState (connections registered)
                (log registered ++ [WsSend wsA (candidate_to A1)])).
Proof.
  apply (self_addressed_routed_back A1 wsA (candidate_to A1) (candidate_to A1)
           registered); [reflexivity|discriminate|reflexivity|reflexivity].
Defined.

(** C10, as stated, fails: [A1] is registered and addresses an offer with
    a data channel to itself; it is terminated and nothing is sent. *)
Lemma self_addressed_offer_not_routed_back :
  connections registered !! A1 = Some wsA
  ∧ get (offer_to A1 sdp_datachannel) (js "id") = Normal (VStr A1)
  ∧ on_message A1 wsA (Some (offer_to A1 sdp_datachannel)) registered
    = Normal (mkState (connections registered) [WsTerminate wsA]).
Proof. vm_compute. done. Qed.

Lemma disallowed_kind_terminates_sender_witness :
  on_message A1 wsA (Some (offer_to B1 sdp_datachannel)) registered
  = Normal (mkState (connections registered)
              (log registered ++ [WsTerminate wsA])).
Proof.
  apply (disallowed_kind_terminates_sender A1 wsA _ (VStr B1) sdp_datachannel);
    [reflexivity..|].
  apply Exists_cons_hd. vm_compute. reflexivity.
Defined.

Lemma parse_failure_terminates_sender_witness :
  on_message A1 wsA (Some offer_without_sdp) registered
  = Normal (mkState (connections registered)
              (log registered ++ [WsTerminate wsA])).
Proof.
  apply (parse_failure_terminates_sender A1 wsA _ (VStr B1)); reflexivity.
Defined.

Lemma clean_offer_forwarded_verbatim_witness :
  ∃ forwarded,
    set (offer_to B1 sdp_clean) (js "id") (VStr A1) = Normal forwarded
    ∧ get forwarded (js "sdp") = Normal (VStr sdp_clean)
    ∧ on_message A1 wsA (Some (offer_to B1 sdp_clean)) registered
      = Normal (mkState (connections registered)
                  (log registered ++ [WsSend wsB forwarded])).
Proof.
  apply (clean_offer_forwarded_verbatim A1 wsA wsB (offer_to B1 sdp_clean) B1
           sdp_clean registered);
    [reflexivity|discriminate|reflexivity|reflexivity| |reflexivity].
  vm_compute. repeat constructor.
Defined.

End Instances.

(** ** Every message *)

Section EveryMessage.

Implicit Types (id : jsstring) (ws peer : sock) (data payload : value)
  (st : state).

Lemma strict_eq_str_true (v : value) lit :
  strict_eq_str v lit = true → v = VStr lit.
Proof.
  destruct v; simpl; try discriminate. by intros ->%eqb_eq.
Qed.

(** When the inspection has returned, it was on an offer, and the one
    call made was the termination of the sender. *)
Lemma inspect_offer_returned ws data st st1 :
  inspect_offer ws data st = Normal (Returned, st1) →
  st1 = ws_terminate ws st
  ∧ get data (js "type") = Normal (VStr (js "offer")).
Proof.
  unfold inspect_offer.
  destruct (get data (js "type")) as [type|]; simpl; [|done].
  destruct (strict_eq_str type (js "offer")) eqn:Hty; [|done].
  apply strict_eq_str_true in Hty as ->.
  destruct (try_block ws data st) as [r|] eqn:Htry; [|by intros [= <-]].
  intros [= ->]. split; [|done]. unfold try_block in Htry.
  destruct (get data (js "sdp")) as [sdp|]; simpl in Htry; [|done].
  destruct (SDPUtils.splitSections sdp) as [sections|]; simpl in Htry; [|done].
  by apply for_sections_inv in Htry as [[[= <-] _]|(d & [=] & _)].
Qed.

(** Only an object has a property that is a string. *)
Lemma get_str_obj data k s :
  get data k = Normal (VStr s) →
  ∃ props, data = VObj props ∧ lookup_prop k props = VStr s.
Proof. destruct data; simpl; intros [= H]; eauto. Qed.

Lemma Map_has_true (m : gmap jsstring sock) (k : value) :
  Map_has m k = true → ∃ dest peer, k = VStr dest ∧ m !! dest = Some peer.
Proof.
  destruct k; simpl; try discriminate.
  intros [peer Hpeer]%bool_decide_eq_true. eauto.
Qed.

(** The three ways a message is dealt with: it is dropped; or it is an
    offer and its sender is terminated; or it is sent, stamped, to the
    socket stored under its destination. *)
Lemma on_message_outcomes id ws data st st' :
  on_message id ws (Some data) st = Normal st' →
  st' = st
  ∨ (st' = ws_terminate ws st
     ∧ get data (js "type") = Normal (VStr (js "offer")))
  ∨ ∃ dest peer data' payload,
      get data (js "id") = Normal (VStr dest)
      ∧ connections st !! dest = Some peer
      ∧ inspect_offer ws data st = Normal (FallsThrough data', st)
      ∧ set data' (js "id") (VStr id) = Normal payload
      ∧ st' = ws_send peer payload st.
Proof.
  unfold on_message.
  destruct (get data (js "id")) as [dest|] eqn:Hid; simpl; [|done].
  destruct (truthy dest) eqn:Htruthy; simpl; [|intros [= <-]; by left].
  destruct (inspect_offer ws data st) as [[[data'|] st1]|] eqn:Hinsp;
    simpl; [| |done].
  - destruct (inspect_offer_falls_through _ _ _ _ _ Hinsp) as [-> Hfr].
    unfold forward. rewrite (Hfr _ sdp_neq_id), Hid. simpl.
    destruct (Map_has (connections st) dest) eqn:Hhas; simpl;
      [|intros [= <-]; by left].
    apply Map_has_true in Hhas as (d & peer & -> & Hpeer).
    destruct (set data' (js "id") (VStr id)) as [payload|] eqn:Hset;
      simpl; [|done].
    rewrite Hpeer. intros [= <-]. right. right.
    by exists d, peer, data', payload.
  - apply inspect_offer_returned in Hinsp as [-> Hty].
    intros [= <-]. right. by left.
Qed.

Lemma log_app_neq (l : list event) e : l ≠ l ++ [e].
Proof.
  intros H. apply (f_equal length) in H. rewrite length_app in H.
  simpl in H. lia.
Qed.


(** X2.  What a message gets sent goes to the socket stored under the id
    the message names, and carries the sender's id. *)
Theorem send_goes_to_named_peer id ws data st st' peer payload :
  on_message id ws (Some data) st = Normal st' →
  log st' = log st ++ [WsSend peer payload] →
  ∃ dest,
    get data (js "id") = Normal (VStr dest)
    ∧ connections st !! dest = Some peer
    ∧ get payload (js "id") = Normal (VStr id).
Proof.
  intros [->|[[-> _]|(dest & peer' & data' & payload' & Hid & Hpeer & Hinsp
                      & Hset & ->)]]%on_message_outcomes Hlog.
  - by apply log_app_neq in Hlog.
  - simpl in Hlog. by apply app_inv_head in Hlog.
  - simpl in Hlog. apply app_inv_head in Hlog as [= <- <-].
    exists dest. split_and!; [done..|].
    destruct (inspect_offer_falls_through _ _ _ _ _ Hinsp) as [_ Hfr].
    rewrite <- (Hfr _ sdp_neq_id) in Hid.
    apply get_str_obj in Hid as (props & -> & _).
    injection Hset as <-. simpl. by rewrite lookup_assign_eq.
Qed.

End EveryMessage.

(** ** What a forwarded envelope keeps *)

Section Frame.

Implicit Types (id : jsstring) (ws peer : sock) (data payload : value)
  (st : state) (props : list (jsstring * value)).

Lemma assign_prop_names k v props :
  lookup_prop k props ≠ VUndefined →
  (assign_prop k v props).*1 = props.*1.
Proof.
  intros (before & old & after & Hprops & _ & _ & ->)
    %(assign_prop_in_place k v).
  rewrite Hprops, !fmap_app. done.
Qed.

Lemma filter_line_names props line data' :
  filter_line (VObj props) line = Normal data' →
  ∃ props', data' = VObj props' ∧ props'.*1 = props.*1.
Proof.
  unfold filter_line. destruct (filtered _); [|intros [= <-]; eauto].
  simpl. destruct (lookup_prop (js "sdp") props) eqn:Hsdp; simpl;
    try discriminate.
  rewrite lookup_assign_eq. simpl. intros [= <-]. eexists. split; [done|].
  rewrite !assign_prop_names; [done|by rewrite Hsdp|].
  by rewrite lookup_assign_eq.
Qed.

Lemma forEach_names lines props data' :
  forEach lines (VObj props) = Normal data' →
  ∃ props', data' = VObj props' ∧ props'.*1 = props.*1.
Proof.
  revert props. induction lines as [|line rest IH]; simpl; intros props.
  - intros [= <-]. eauto.
  - destruct (filter_line (VObj props) line) as [data1|] eqn:Hline; simpl;
      [|done].
    apply filter_line_names in Hline as (props1 & -> & Hnames1).
    intros (props' & -> & Hnames)%IH. exists props'. by rewrite Hnames.
Qed.

Lemma for_sections_names ws sections props st data' st' :
  for_sections ws sections (VObj props) st = Normal (FallsThrough data', st') →
  ∃ props', data' = VObj props' ∧ props'.*1 = props.*1.
Proof.
  revert props. induction sections as [|section rest IH]; simpl; intros props.
  - intros [= <- _]. eauto.
  - destruct (negb _); [done|].
    destruct (forEach _ (VObj props)) as [data1|] eqn:Hlines; simpl; [|done].
    apply forEach_names in Hlines as (props1 & -> & Hnames1).
    intros (props' & -> & Hnames)%IH. exists props'. by rewrite Hnames.
Qed.

Lemma inspect_offer_names ws props st data' st' :
  inspect_offer ws (VObj props) st = Normal (FallsThrough data', st') →
  ∃ props', data' = VObj props' ∧ props'.*1 = props.*1.
Proof.
  unfold inspect_offer. simpl.
  destruct (strict_eq_str _ _); [|intros [= <- _]; eauto].
  destruct (try_block ws (VObj props) st) as [r|] eqn:Htry; [|done].
  intros [= ->]. unfold try_block in Htry. simpl in Htry.
  destruct (SDPUtils.splitSections _) as [sections|]; simpl in Htry; [|done].
  by apply for_sections_names in Htry.
Qed.

(** X3.  What is sent is the object that came in with the same property
    names in the same order, and with the same value for every property
    but [id] and [sdp]. *)
Theorem forwarded_envelope_frame id ws data st st' peer payload :
  on_message id ws (Some data) st = Normal st' →
  log st' = log st ++ [WsSend peer payload] →
  ∃ props props',
    data = VObj props ∧ payload = VObj props'
    ∧ props'.*1 = props.*1
    ∧ ∀ k, k ≠ js "id" → k ≠ js "sdp" →
           lookup_prop k props' = lookup_prop k props.
Proof.
  intros [->|[[-> _]|(dest & peer' & data' & payload' & Hid & Hpeer & Hinsp
                      & Hset & ->)]]%on_message_outcomes Hlog.
  - by apply log_app_neq in Hlog.
  - simpl in Hlog. by apply app_inv_head in Hlog.
  - simpl in Hlog. apply app_inv_head in Hlog as [= <- <-].
    apply get_str_obj in Hid as (props & -> & Hlook).
    destruct (inspect_offer_falls_through _ _ _ _ _ Hinsp) as [_ Hfr].
    apply inspect_offer_names in Hinsp as (props1 & -> & Hnames).
    injection Hset as <-. exists props, (assign_prop (js "id") (VStr id) props1).
    split_and!; [done..| |].
    + rewrite assign_prop_names; [done|].
      specialize (Hfr _ sdp_neq_id). simpl in Hfr. injection Hfr as ->.
      by rewrite Hlook.
    + intros k Hk Hk'. rewrite lookup_assign_ne; [|done].
      specialize (Hfr k Hk'). simpl in Hfr. by injection Hfr.
Qed.

End Frame.

(** ** When the sender is terminated, and when the handler throws *)

Section Verdicts.

Implicit Types (id : jsstring) (ws peer : sock) (data payload : value)
  (st : state) (props : list (jsstring * value)).

Lemma forward_total id data (dest : value) st :
  get data (js "id") = Normal dest → truthy dest = true →
  ∃ st', forward id data st = Normal st'
         ∧ (st' = st ∨ ∃ peer payload, st' = ws_send peer payload st).
Proof.
  intros Hid Htruthy.
  destruct (get_truthy_obj _ _ _ Hid Htruthy) as (props & -> & Hlook).
  unfold forward. simpl get. simpl.
  destruct (Map_has (connections st) (lookup_prop (js "id") props)) eqn:Hhas;
    simpl; [|eauto].
  apply Map_has_true in Hhas as (d & peer & Hd & Hpeer). rewrite Hd. simpl.
  rewrite Hpeer. eauto 6.
Qed.

(** X4.  An envelope with a destination gets its sender terminated in
    these cases and no other: it is an offer, and its [sdp] is not a
    string or has a media section that is neither audio nor video. *)
Theorem sender_terminated_iff id ws props st :
  truthy (lookup_prop (js "id") props) = true →
  on_message id ws (Some (VObj props)) st
  = Normal (mkState (connections st) (log st ++ [WsTerminate ws]))
  ↔ lookup_prop (js "type") props = VStr (js "offer")
    ∧ ((∀ s, lookup_prop (js "sdp") props ≠ VStr s)
       ∨ ∃ s, lookup_prop (js "sdp") props = VStr s
              ∧ Exists (λ section, allowed_kind section = false)
                       (media_sections s)).
Proof.
  intros Htruthy. split.
  - intros Hrun.
    pose proof Hrun as [Hst|[[_ Hty]|(dest & peer & data' & payload & _ & _ & _
                                      & _ & Hst)]]%on_message_outcomes.
    + apply (f_equal log) in Hst. simpl in Hst. symmetry in Hst.
      by apply log_app_neq in Hst.
    + simpl in Hty. injection Hty as Hty. split; [done|].
      destruct (lookup_prop (js "sdp") props) as [| | | |s| |] eqn:Hsdp;
        try (by left).
      right. exists s. split; [done|].
      unfold on_message in Hrun. simpl get in Hrun. simpl in Hrun.
      rewrite Htruthy in Hrun. simpl in Hrun.
      rewrite (inspect_offer_offer ws (VObj props) st) in Hrun;
        [|simpl; by rewrite Hty].
      rewrite (try_block_string _ _ s) in Hrun; [|simpl; by rewrite Hsdp].
      destruct (for_sections_total ws (media_sections s) (VObj props) st)
        as [r Hr]; [by exists props, s|].
      rewrite Hr in Hrun.
      apply for_sections_inv in Hr as [[_ Hbad]|(data' & -> & _ & Hfr)];
        [done|].
      simpl in Hrun. exfalso.
      destruct (forward_total id data' (lookup_prop (js "id") props) st)
        as (st' & Hfw & Hst'); [by rewrite (Hfr _ sdp_neq_id)|done|].
      rewrite Hfw in Hrun. injection Hrun as ->.
      destruct Hst' as [Hst'|(peer & payload & Hst')];
        apply (f_equal log) in Hst'; simpl in Hst'.
      * symmetry in Hst'. by apply log_app_neq in Hst'.
      * by apply app_inv_head in Hst'.
    + apply (f_equal log) in Hst. simpl in Hst.
      by apply app_inv_head in Hst.
  - intros [Hty Hsdp]. unfold on_message. simpl get. simpl.
    rewrite Htruthy. simpl.
    rewrite (inspect_offer_offer ws (VObj props) st); [|simpl; by rewrite Hty].
    destruct Hsdp as [Hnot|(s & Hs & Hbad)].
    + apply (try_block_throws props ws st) in Hnot. by rewrite Hnot.
    + rewrite <- (inspect_offer_offer ws (VObj props) st);
        [|simpl; by rewrite Hty].
      rewrite (inspect_offer_disallowed ws (VObj props) s st);
        [done|simpl; by rewrite Hty|simpl; by rewrite Hs|done].
Qed.

(** X5.  The handler lets an exception out on one input only: a text that
    parses to [null].  Everything else, however malformed, is handled. *)
Theorem handler_throws_iff id ws message st :
  on_message id ws message st = Thrown
  ↔ message = Some VNull ∨ message = Some VUndefined.
Proof.
  split; [|by intros [->| ->]].
  destruct message as [data|]; [|done].
  destruct data as [| | | | | |props]; try done; [by right|by left|].
  unfold on_message. simpl get. simpl.
  destruct (truthy (lookup_prop (js "id") props)) eqn:Htruthy; simpl; [|done].
  destruct (inspect_offer_outcome ws props st) as [->|[data' Hpass]];
    simpl; [done|].
  rewrite Hpass. simpl.
  destruct (inspect_offer_falls_through _ _ _ _ _ Hpass) as [_ Hfr].
  destruct (forward_total id data' (lookup_prop (js "id") props) st)
    as (st' & -> & _); [by rewrite (Hfr _ sdp_neq_id)|done|done].
Qed.

End Verdicts.

(** ** What the inspection takes out of a description *)

Section Removal.

Implicit Types (id : jsstring) (ws peer : sock) (data payload : value)
  (st : state) (s pat line : jsstring).

Lemma startsWith_app pat s :
  startsWith pat s = true → s = pat ++ drop (length pat) s.
Proof.
  revert s. induction pat as [|a pat IH]; intros [|b s]; simpl; try done.
  intros [->%N.eqb_eq Hrest]%andb_true_iff. f_equal. by apply IH.
Qed.

(** [replace] leaves the text alone or takes one copy of the pattern out. *)
Lemma replace_first_split pat s :
  replace_first pat s = s
  ∨ ∃ before after, s = before ++ pat ++ after
                    ∧ replace_first pat s = before ++ after.
Proof.
  induction s as [|c t IH].
  - change (replace_first pat [])
      with (if startsWith pat [] then drop (length pat) [] else @nil N).
    left. destruct (startsWith pat []); [apply drop_nil|done].
  - change (replace_first pat (c :: t))
      with (if startsWith pat (c :: t) then drop (length pat) (c :: t)
            else c :: replace_first pat t).
    destruct (startsWith pat (c :: t)) eqn:Hstart.
    + right. exists [], (drop (length pat) (c :: t)). split; [|done].
      by apply startsWith_app.
    + destruct IH as [->|(before & after & -> & ->)]; [by left|].
      right. by exists (c :: before), after.
Qed.

Lemma cut_down_replace pat s :
  removable pat → cut_down s (replace_first pat s).
Proof.
  intros Hpat. destruct (replace_first_split pat s)
    as [->|(before & after & -> & ->)]; [constructor|].
  apply cut_piece; [done|constructor].
Qed.

Lemma cut_down_trans s1 s2 s3 :
  cut_down s1 s2 → cut_down s2 s3 → cut_down s1 s3.
Proof.
  induction 1 as [|before piece after s' Hpiece _ IH]; [done|].
  intros H. apply cut_piece; [done|by apply IH].
Qed.

Lemma cut_down_sublist s s' : cut_down s s' → s' `sublist_of` s.
Proof.
  induction 1 as [|before piece after s' _ _ IH]; [done|].
  etrans; [done|]. apply sublist_app; [done|]. by apply sublist_inserts_l.
Qed.

Lemma filter_line_cut data line s data' :
  startsWith (js "a=extmap:") line = true →
  get data (js "sdp") = Normal (VStr s) →
  filter_line data line = Normal data' →
  ∃ s', get data' (js "sdp") = Normal (VStr s') ∧ cut_down s s'.
Proof.
  intros Hline (props & -> & Hs)%get_str_obj. unfold filter_line.
  destruct (filtered _) eqn:Hdeny;
    [|intros [= <-]; exists s; simpl; rewrite Hs; split; [done|constructor]].
  simpl. rewrite Hs. simpl. rewrite lookup_assign_eq. simpl.
  intros [= <-]. eexists. simpl. rewrite lookup_assign_eq. split; [done|].
  eapply cut_down_trans; apply cut_down_replace; exists line; eauto.
Qed.

Lemma forEach_cut lines data s data' :
  Forall (λ line, startsWith (js "a=extmap:") line = true) lines →
  get data (js "sdp") = Normal (VStr s) →
  forEach lines data = Normal data' →
  ∃ s', get data' (js "sdp") = Normal (VStr s') ∧ cut_down s s'.
Proof.
  intros Hlines. revert data s.
  induction Hlines as [|line rest Hline _ IH]; simpl; intros data s Hs.
  - intros [= <-]. exists s. split; [done|constructor].
  - destruct (filter_line data line) as [data1|] eqn:Hstep; simpl; [|done].
    destruct (filter_line_cut _ _ _ _ Hline Hs Hstep) as (s1 & Hs1 & Hcut1).
    intros (s' & Hs' & Hcut)%(IH _ _ Hs1). exists s'. split; [done|].
    by eapply cut_down_trans.
Qed.

Lemma matchPrefix_startsWith blob prefix :
  Forall (λ line, startsWith prefix line = true)
         (SDPUtils.matchPrefix blob prefix).
Proof.
  apply List.Forall_forall. intros line Hin.
  by apply List.filter_In in Hin as [_ Hin].
Qed.

Lemma for_sections_cut ws sections data s st data' st' :
  get data (js "sdp") = Normal (VStr s) →
  for_sections ws sections data st = Normal (FallsThrough data', st') →
  ∃ s', get data' (js "sdp") = Normal (VStr s') ∧ cut_down s s'.
Proof.
  revert data s. induction sections as [|section rest IH]; simpl;
    intros data s Hs.
  - intros [= <- _]. exists s. split; [done|constructor].
  - destruct (negb _); [done|].
    destruct (forEach _ data) as [data1|] eqn:Hlines; simpl; [|done].
    destruct (forEach_cut _ _ _ _ (matchPrefix_startsWith _ _) Hs Hlines)
      as (s1 & Hs1 & Hcut1).
    intros (s' & Hs' & Hcut)%(IH _ _ Hs1). exists s'. split; [done|].
    by eapply cut_down_trans.
Qed.

Lemma inspect_offer_cut ws data s st data' st' :
  get data (js "sdp") = Normal (VStr s) →
  inspect_offer ws data st = Normal (FallsThrough data', st') →
  ∃ s', get data' (js "sdp") = Normal (VStr s') ∧ cut_down s s'.
Proof.
  intros Hs. unfold inspect_offer.
  destruct (get data (js "type")) as [type|]; simpl; [|done].
  destruct (strict_eq_str _ _);
    [|intros [= <- _]; exists s; split; [done|constructor]].
  rewrite (try_block_string _ _ _ _ Hs).
  destruct (for_sections _ _ _ _) as [r|] eqn:Hloop; [|done].
  intros [= ->]. by eapply for_sections_cut.
Qed.

(** X6.  The [sdp] that is sent is the [sdp] that came in with pieces
    taken out, each piece being a line that starts with [a=extmap:] and
    has a denylisted URI, with a line terminator after it.  Nothing is
    added, and no other text is taken out. *)
Theorem forwarded_sdp_cut_down id ws data s st st' peer payload :
  get data (js "sdp") = Normal (VStr s) →
  on_message id ws (Some data) st = Normal st' →
  log st' = log st ++ [WsSend peer payload] →
  ∃ s', get payload (js "sdp") = Normal (VStr s')
        ∧ cut_down s s' ∧ s' `sublist_of` s.
Proof.
  intros Hs [->|[[-> _]|(dest & peer' & data' & payload' & Hid & Hpeer & Hinsp
                         & Hset & ->)]]%on_message_outcomes Hlog.
  - by apply log_app_neq in Hlog.
  - simpl in Hlog. by apply app_inv_head in Hlog.
  - simpl in Hlog. apply app_inv_head in Hlog as [= <- <-].
    destruct (inspect_offer_cut _ _ _ _ _ _ Hs Hinsp) as (s' & Hs' & Hcut).
    exists s'. split_and!; [|done|by apply cut_down_sublist].
    apply get_str_obj in Hs' as (props' & -> & Hlook).
    injection Hset as <-. simpl. rewrite lookup_assign_ne; [by rewrite Hlook|].
    intros E. by apply sdp_neq_id.
Qed.

End Removal.

(** ** The part of a description that is not inspected *)

Section FirstSection.

Import Scenario Edge.
Implicit Types (id dest s : jsstring) (ws : sock) (data : value) (st : state).

Lemma split_go_absent sep cur s :
  contains sep s = false → split_go sep cur s O = [rev cur ++ s].
Proof.
  revert cur. induction s as [|c t IH]; intros cur Habs.
  - simpl. by rewrite app_nil_r.
  - change (contains sep (c :: t))
      with (startsWith sep (c :: t) || contains sep t) in Habs.
    apply orb_false_iff in Habs as [Hhere Hlater].
    change (split_go sep cur (c :: t) O)
      with (if startsWith sep (c :: t)
            then rev cur :: split_go sep [] t (length sep - 1)
            else split_go sep (c :: cur) t O).
    rewrite Hhere, (IH _ Hlater). simpl. by rewrite <- app_assoc.
Qed.

(** A text without a line break followed by [m=] is one section, the
    one that [shift] drops. *)
Lemma media_sections_none s :
  contains (LF ++ js "m=") s = false → media_sections s = [].
Proof.
  intros Habs. unfold media_sections, SDPUtils.splitSections, split.
  by rewrite (split_go_absent _ _ _ Habs).
Qed.

(** X7.  The first section is not inspected: an offer whose description
    has no line break followed by [m=] is sent on with [sdp] as it came,
    whatever the text is, the empty text and a text that starts with the
    media line of a data channel included. *)
Theorem first_section_not_inspected idA wsA wsB data dest s st :
  get data (js "id") = Normal (VStr dest) → nonempty_id dest →
  get data (js "type") = Normal (VStr (js "offer")) →
  get data (js "sdp") = Normal (VStr s) →
  contains (LF ++ js "m=") s = false →
  connections st !! dest = Some wsB →
  ∃ payload,
    set data (js "id") (VStr idA) = Normal payload
    ∧ get payload (js "sdp") = Normal (VStr s)
    ∧ on_message idA wsA (Some data) st
      = Normal (mkState (connections st) (log st ++ [WsSend wsB payload])).
Proof.
  intros Hid Hne Hty Hs Habs Hpeer.
  destruct (get_truthy_obj _ _ _ Hid (nonempty_truthy _ Hne))
    as (props & -> & Hlook).
  eexists. split_and!; [done| |].
  - simpl. rewrite lookup_assign_ne; [done|]. intros E. by apply sdp_neq_id.
  - unfold on_message. rewrite Hid. simpl. rewrite (nonempty_truthy _ Hne).
    simpl.
    rewrite (inspect_offer_offer _ _ _ Hty), (try_block_string _ _ _ _ Hs).
    rewrite (media_sections_none _ Habs). simpl.
    by rewrite (forward_found _ _ _ _ _ Hlook Hpeer).
Qed.

Lemma first_section_not_inspected_witness :
  ∃ payload,
    set (offer_to B1 sdp_leading_datachannel) (js "id") (VStr A1)
    = Normal payload
    ∧ get payload (js "sdp") = Normal (VStr sdp_leading_datachannel)
    ∧ on_message A1 wsA (Some (offer_to B1 sdp_leading_datachannel)) registered
      = Normal (mkState (connections registered)
                  (log registered ++ [WsSend wsB payload])).
Proof.
  apply (first_section_not_inspected A1 wsA wsB
           (offer_to B1 sdp_leading_datachannel) B1 sdp_leading_datachannel
           registered);
    [reflexivity|discriminate|reflexivity|reflexivity| |reflexivity].
  vm_compute. reflexivity.
Defined.

(** X8.  The kinds are read from the description as it came, and the
    lines are taken out of the whole text: there is an offer whose media
    sections are all audio or video and that is sent on with a media
    section of another kind, and with the denylisted line of its video
    section still there. *)
Theorem removal_can_make_a_disallowed_section :
  ∃ s s',
    forallb allowed_kind (media_sections s) = true
    ∧ on_message A1 wsA (Some (offer_to B1 s)) registered
      = Normal (mkState (connections registered)
                  [WsSend wsB (offer_to A1 s')])
    ∧ cut_down s s'
    ∧ existsb (λ section, negb (allowed_kind section)) (media_sections s')
      = true
    ∧ has_denylisted_extmap s' = true.
Proof.
  exists sdp_spliced, sdp_spliced_forwarded.
  split_and!; [by vm_compute|by vm_compute| |by vm_compute|by vm_compute].
  pose (line := js "a=extmap:13 http://www.webrtc.org/experiments/rtp-hdrext/video-timing").
  change sdp_spliced
    with ((js "v=0" ++ CRLF ++ js "m") ++ (line ++ CRLF)
          ++ text CRLF
               ["=application 9 UDP/DTLS/SCTP webrtc-datachannel";
                "a=sctp-port:5000";
                "m=video 9 UDP/TLS/RTP/SAVPF 96";
                "a=extmap:13 http://www.webrtc.org/experiments/rtp-hdrext/video-timing"]%string).
  apply cut_piece; [|apply cut_none].
  exists line. split_and!; [by vm_compute|by vm_compute|by left].
Qed.

End FirstSection.

(** ** Connecting, closing and messages, composed *)

Section Lifecycle.

Import Scenario Edge.
Implicit Types (id dest : jsstring) (ws peer : sock) (data payload : value)
  (st : state).

Lemma on_connection_cases id ws st :
  on_connection id ws st
  = if bool_decide (is_Some (connections st !! id)) then ws_close ws st
    else ws_send ws iceServers (ws_send ws (hello id) (Map_set id ws st)).
Proof. reflexivity. Qed.

Lemma on_connection_free id ws st :
  connections st !! id = None →
  on_connection id ws st
  = ws_send ws iceServers (ws_send ws (hello id) (Map_set id ws st)).
Proof.
  intros Hfree. rewrite on_connection_cases, bool_decide_eq_false_2; [done|].
  rewrite Hfree. by intros [? ?].
Qed.

Lemma on_connection_taken id ws st :
  is_Some (connections st !! id) → on_connection id ws st = ws_close ws st.
Proof.
  intros Htaken. by rewrite on_connection_cases, bool_decide_eq_true_2.
Qed.

Lemma on_message_connections id ws message st st' :
  on_message id ws message st = Normal st' →
  connections st' = connections st.
Proof.
  destruct message as [data|]; [|by intros [= <-]].
  by intros [->|[[-> _]|(dest & peer & data' & payload & _ & _ & _ & _ & ->)]]
    %on_message_outcomes.
Qed.

(** An envelope that passes the inspection and names a stored id is sent
    to the socket stored under it. *)
Lemma on_message_found id ws data dest data' peer st :
  get data (js "id") = Normal (VStr dest) → nonempty_id dest →
  inspect_offer ws data st = Normal (FallsThrough data', st) →
  connections st !! dest = Some peer →
  ∃ payload,
    set data' (js "id") (VStr id) = Normal payload
    ∧ on_message id ws (Some data) st = Normal (ws_send peer payload st).
Proof.
  intros Hid Hne Hpass Hpeer.
  destruct (inspect_offer_falls_through _ _ _ _ _ Hpass) as [_ Hfr].
  pose proof Hid as Hid'. rewrite <- (Hfr _ sdp_neq_id) in Hid'.
  apply get_str_obj in Hid' as (props' & -> & Hlook).
  eexists. split; [done|].
  unfold on_message. rewrite Hid. simpl. rewrite (nonempty_truthy _ Hne).
  simpl. rewrite Hpass. simpl. by rewrite (forward_found _ _ _ _ _ Hlook Hpeer).
Qed.

(** X9.  Connecting under a free id and then closing leaves the registry
    as it was. *)
Theorem connect_then_close_restores id ws st :
  connections st !! id = None →
  connections (on_close id (on_connection id ws st)) = connections st.
Proof.
  intros Hfree. rewrite (on_connection_free _ _ _ Hfree). simpl.
  rewrite delete_insert_eq. by apply delete_id.
Qed.

(** X10.  Once a client is connected under a free id, an envelope that is
    not an offer and names that id is sent to its socket, stamped with the
    sender's id. *)
Theorem connected_client_is_reachable id ws idB wsB data type st :
  connections st !! id = None → nonempty_id id →
  get data (js "id") = Normal (VStr id) →
  get data (js "type") = Normal type →
  strict_eq_str type (js "offer") = false →
  ∃ payload,
    set data (js "id") (VStr idB) = Normal payload
    ∧ on_message idB wsB (Some data) (on_connection id ws st)
      = Normal (mkState (connections (on_connection id ws st))
                  (log (on_connection id ws st) ++ [WsSend ws payload])).
Proof.
  intros Hfree Hne Hid Hty Hnot.
  apply (on_message_found idB wsB data id data ws); [done..| |].
  - by apply (inspect_offer_other _ _ type).
  - rewrite (on_connection_free _ _ _ Hfree). simpl. apply lookup_insert_eq.
Qed.

(** X11.  Once a client has closed, an envelope that names its id is sent
    to nobody: it is dropped, or it is an offer that gets its own sender
    terminated. *)
Theorem closed_client_gets_nothing id ws data dest st st' :
  get data (js "id") = Normal (VStr dest) →
  on_message id ws (Some data) (on_close dest st) = Normal st' →
  st' = on_close dest st
  ∨ st' = mkState (connections (on_close dest st))
            (log (on_close dest st) ++ [WsTerminate ws]).
Proof.
  intros Hid [->|[[-> _]|(d & peer & data' & payload & Hid' & Hpeer & _)]]
    %on_message_outcomes; [by left|by right|].
  rewrite Hid in Hid'. injection Hid' as <-.
  by rewrite on_close_removes in Hpeer.
Qed.

(** X12.  A stored entry stays as it is until the close of its
    connection: no connection, message or close of another connection
    replaces or removes it. *)
Theorem entry_kept_until_close i id ws st st' :
  connections st !! id = Some ws →
  (∀ ws', i ≠ Close id ws') →
  handle i st = Normal st' →
  connections st' !! id = Some ws.
Proof.
  intros Hentry Hother. destruct i as [id2 ws2|id2 ws2|id2 ws2 message]; simpl.
  - intros [= <-]. rewrite on_connection_cases. case_bool_decide as Htaken;
      [done|]. simpl. rewrite lookup_insert_ne; [done|].
    intros ->. apply Htaken. by rewrite Hentry.
  - intros [= <-]. simpl. rewrite lookup_delete_ne; [done|].
    intros ->. by apply (Hother ws2).
  - intros Hrun. by rewrite (on_message_connections _ _ _ _ _ Hrun).
Qed.

End Lifecycle.

(** ** Runs of the server *)

Section Invariants.

Implicit Types (id dest : jsstring) (ws peer : sock) (data payload : value)
  (st : state) (history : list input) (events : list event).

Lemma first_send_app ws events events' :
  first_send ws (events ++ events')
  = match first_send ws events with
    | Some payload => Some payload
    | None => first_send ws events'
    end.
Proof.
  induction events as [|e rest IH]; simpl; [done|].
  destruct e; try done. by case_bool_decide.
Qed.

Lemma first_send_elem ws events payload :
  first_send ws events = Some payload → WsSend ws payload ∈ events.
Proof.
  induction events as [|e rest IH]; simpl; [done|].
  destruct e as [| |ws' payload'| |]; try (intros H; right; by apply IH).
  case_bool_decide as Hws; [|intros H; right; by apply IH].
  intros [= ->]. subst ws'. left.
Qed.

Lemma first_send_fresh ws st : fresh ws st → first_send ws (log st) = None.
Proof.
  intros Hfresh. destruct (first_send ws (log st)) as [payload|] eqn:Hfirst;
    [|done].
  apply first_send_elem in Hfirst. by destruct (Hfresh _ Hfirst).
Qed.

Lemma fresh_not_stored ws st id : fresh ws st → MapSet id ws ∉ log st.
Proof. intros Hfresh Hin. by destruct (Hfresh _ Hin). Qed.

(** A step that stores nothing, closes nothing and sends only to sockets
    that were stored keeps the state consistent. *)
Lemma consistent_quiet history st i events :
  consistent history st →
  (∀ id ws, i ≠ Close id ws) →
  (∀ id ws, MapSet id ws ∉ events) →
  (∀ peer payload, WsSend peer payload ∈ events →
                   ∃ id, MapSet id peer ∈ log st) →
  consistent (history ++ [i]) (mkState (connections st) (log st ++ events)).
Proof.
  intros (I1 & I2 & I3 & I4 & K2 & K1) Hi Hset Hsend.
  assert (∀ id ws, MapSet id ws ∈ log st ++ events → MapSet id ws ∈ log st)
    as Hold.
  { intros id ws [H|H]%elem_of_app; [done|by destruct (Hset id ws)]. }
  assert (∀ id ws, Close id ws ∈ history ++ [i] → Close id ws ∈ history)
    as Hclose.
  { intros id ws [H|H%list_elem_of_singleton]%elem_of_app; [done|].
    by destruct (Hi id ws). }
  unfold consistent. simpl. split_and!.
  - intros id ws H. apply elem_of_app. left. by apply I1.
  - intros id id' ws H H'. apply (I2 id id' ws); by apply Hold.
  - intros id ws H id' Hc. by apply (I3 id ws H id'), Hclose.
  - intros id ws H. apply elem_of_app. left. by apply I4, Hclose.
  - intros id ws H. rewrite first_send_app, (K2 id ws); [done|by apply Hold].
  - intros ws payload. rewrite first_send_app.
    destruct (first_send ws (log st)) as [p|] eqn:Hfirst.
    + intros _. destruct (K1 ws p Hfirst) as [id H]. exists id.
      apply elem_of_app. by left.
    + intros H%first_send_elem. destruct (Hsend _ _ H) as [id H'].
      exists id. apply elem_of_app. by left.
Qed.

Lemma consistent_connection history st id ws :
  consistent history st → fresh ws st →
  consistent (history ++ [Connection id ws]) (on_connection id ws st).
Proof.
  intros Hcons Hfresh. rewrite on_connection_cases.
  case_bool_decide as Htaken.
  { apply (consistent_quiet history st _ [WsClose ws]); [done|done| |].
    - intros i w H%list_elem_of_singleton. discriminate.
    - intros p payload H%list_elem_of_singleton. discriminate. }
  destruct Hcons as (I1 & I2 & I3 & I4 & K2 & K1).
  assert (∀ i w, MapSet i w ∈ log (ws_send ws iceServers
             (ws_send ws (hello id) (Map_set id ws st)))
           ↔ MapSet i w ∈ log st ∨ (i = id ∧ w = ws)) as Hsets.
  { intros i w. simpl. rewrite !elem_of_app, !list_elem_of_singleton.
    split; [intros [[[H|[= -> ->]]|[=]]|[=]]; eauto|].
    intros [H|[-> ->]]; eauto. }
  assert (∀ w, first_send w (log (ws_send ws iceServers
             (ws_send ws (hello id) (Map_set id ws st))))
           = match first_send w (log st) with
             | Some payload => Some payload
             | None => if bool_decide (ws = w) then Some (hello id) else None
             end) as Hfirst.
  { intros w. simpl. rewrite !first_send_app. simpl.
    destruct (first_send w (log st)); [done|]. by case_bool_decide. }
  assert (∀ i w, Close i w ∈ history ++ [Connection id ws]
                 → Close i w ∈ history) as Hclose.
  { by intros i w [H|H%list_elem_of_singleton]%elem_of_app. }
  unfold consistent. split_and!.
  - intros i w. simpl. intros [[-> ->]|[_ H]]%lookup_insert_Some;
      apply Hsets; eauto.
  - intros i i' w [H|[-> ->]]%Hsets [H'|[-> Hw]]%Hsets.
    + by apply (I2 i i' w).
    + subst w. by destruct (fresh_not_stored _ _ i Hfresh).
    + by destruct (fresh_not_stored _ _ i' Hfresh).
    + done.
  - intros i w. simpl. intros [[-> ->]|[_ H]]%lookup_insert_Some i' Hc%Hclose.
    + apply I4 in Hc. by destruct (fresh_not_stored _ _ i' Hfresh).
    + by apply (I3 i w H i').
  - intros i w Hc%Hclose. apply Hsets. left. by apply I4.
  - intros i w [H|[-> ->]]%Hsets; rewrite Hfirst.
    + by rewrite (K2 i w H).
    + rewrite (first_send_fresh _ _ Hfresh). by rewrite bool_decide_eq_true_2.
  - intros w payload. rewrite Hfirst.
    destruct (first_send w (log st)) as [p|] eqn:Hold.
    + intros _. destruct (K1 w p Hold) as [i H]. exists i. apply Hsets. eauto.
    + case_bool_decide as Hw; [|done]. intros _. exists id. apply Hsets. eauto.
Qed.

Lemma consistent_close history st id ws :
  consistent history st →
  MapSet id ws ∈ log st → (∀ id', Close id' ws ∉ history) →
  consistent (history ++ [Close id ws]) (on_close id st).
Proof.
  intros (I1 & I2 & I3 & I4 & K2 & K1) Hstored Hopen.
  assert (∀ i w, MapSet i w ∈ log (on_close id st) ↔ MapSet i w ∈ log st)
    as Hsets.
  { intros i w. simpl. rewrite elem_of_app, list_elem_of_singleton.
    split; [by intros [H|[=]]|eauto]. }
  assert (∀ w, first_send w (log (on_close id st)) = first_send w (log st))
    as Hfirst.
  { intros w. simpl. rewrite first_send_app. simpl.
    by destruct (first_send w (log st)). }
  unfold consistent. split_and!.
  - intros i w. simpl. intros [_ H]%lookup_delete_Some. by apply Hsets, I1.
  - intros i i' w H%Hsets H'%Hsets. by apply (I2 i i' w).
  - intros i w. simpl. intros [Hne H]%lookup_delete_Some i'.
    intros [Hc|[= -> ->]%list_elem_of_singleton]%elem_of_app.
    + by apply (I3 i w H i').
    + apply Hne. apply (I2 id i ws); [done|by apply I1].
  - intros i w [Hc|[= -> ->]%list_elem_of_singleton]%elem_of_app;
      apply Hsets; [by apply I4|done].
  - intros i w H%Hsets. rewrite Hfirst. by apply K2.
  - intros w payload. rewrite Hfirst. intros [i H]%K1. exists i.
    by apply Hsets.
Qed.

Lemma consistent_message history st id ws message st' :
  consistent history st →
  on_message id ws message st = Normal st' →
  consistent (history ++ [Message id ws message]) st'.
Proof.
  intros Hcons Hrun.
  assert (∃ events, st' = mkState (connections st) (log st ++ events)
            ∧ (∀ i w, MapSet i w ∉ events)
            ∧ (∀ peer payload, WsSend peer payload ∈ events →
                               ∃ dest, connections st !! dest = Some peer))
    as (events & -> & Hset & Hsend).
  { destruct message as [data|].
    - apply on_message_outcomes in Hrun
        as [->|[[-> _]|(dest & peer & data' & payload & _ & Hpeer & _ & _
                        & ->)]].
      + exists []. destruct st. simpl. rewrite app_nil_r.
        split_and!; [done|intros ?? []%elem_of_nil|intros ?? []%elem_of_nil].
      + exists [WsTerminate ws]. split_and!; [done| |];
          intros ?? H%list_elem_of_singleton; discriminate.
      + exists [WsSend peer payload]. split_and!; [done| |].
        * intros ?? H%list_elem_of_singleton; discriminate.
        * intros ?? [= -> ->]%list_elem_of_singleton. eauto.
    - injection Hrun as <-. exists []. destruct st. simpl. rewrite app_nil_r.
      split_and!; [done|intros ?? []%elem_of_nil|intros ?? []%elem_of_nil]. }
  apply consistent_quiet; [done|done|done|].
  intros peer payload [dest Hpeer]%Hsend. exists dest.
  by apply (proj1 Hcons).
Qed.

(** Every state of a run is consistent. *)
Lemma reachable_consistent history st :
  reachable history st → consistent history st.
Proof.
  induction 1 as [|history st i st' _ IH Hadm Hrun].
  - unfold consistent. simpl. split_and!.
    + intros id ws H. by rewrite lookup_empty in H.
    + intros id id' ws []%elem_of_nil.
    + intros id ws H. by rewrite lookup_empty in H.
    + intros id ws []%elem_of_nil.
    + intros id ws []%elem_of_nil.
    + done.
  - destruct Hadm as [id ws Hfresh|id ws Hstored Hopen|id ws message Hstored];
      simpl in Hrun.
    + injection Hrun as <-. by apply consistent_connection.
    + injection Hrun as <-. by apply consistent_close.
    + by apply (consistent_message history st).
Qed.

End Invariants.

(** ** What holds throughout a run *)

Section Throughout.

Import Scenario Edge.
Implicit Types (id dest : jsstring) (ws peer : sock) (data payload : value)
  (st : state) (history : list input).

(** Membership in a list that is written out, case by case. *)
Ltac in_list H := repeat (apply elem_of_cons in H; destruct H as [H|H]).

(** X13.  The first thing sent to a socket is the hello that carries the
    id under which the socket was stored. *)
Theorem first_send_is_hello history st ws payload :
  reachable history st →
  first_send ws (log st) = Some payload →
  ∃ id, payload = hello id ∧ MapSet id ws ∈ log st.
Proof.
  intros (_ & _ & _ & _ & K2 & K1)%reachable_consistent Hfirst.
  destruct (K1 _ _ Hfirst) as [id Hstored]. exists id. split; [|done].
  rewrite (K2 _ _ Hstored) in Hfirst. by injection Hfirst.
Qed.

(** X14.  No socket is stored under two ids. *)
Theorem no_socket_under_two_ids history st id id' ws :
  reachable history st →
  connections st !! id = Some ws → connections st !! id' = Some ws →
  id = id'.
Proof.
  intros (I1 & I2 & _)%reachable_consistent H H'.
  apply (I2 id id' ws); by apply I1.
Qed.

(** X15.  A socket that has closed is not in the registry, under any
    id. *)
Theorem closed_socket_not_stored history st id ws id' :
  reachable history st → Close id ws ∈ history →
  connections st !! id' ≠ Some ws.
Proof.
  intros (_ & _ & I3 & _)%reachable_consistent Hclosed Hstored.
  by apply (I3 _ _ Hstored id).
Qed.

(** X16.  Once a socket has closed, nothing is sent to it any more,
    whatever comes next. *)
Theorem no_send_after_close history st id ws i st' :
  reachable history st → Close id ws ∈ history →
  admissible history st i → handle i st = Normal st' →
  ∃ events, log st' = log st ++ events
            ∧ ∀ payload, WsSend ws payload ∉ events.
Proof.
  intros (_ & _ & I3 & I4 & _)%reachable_consistent Hclosed Hadm.
  destruct Hadm as [id2 ws2 Hfresh|id2 ws2 _ _|id2 ws2 message _]; simpl.
  - intros [= <-]. assert (ws2 ≠ ws) as Hws.
    { intros ->. by apply (fresh_not_stored _ _ id Hfresh), I4. }
    rewrite on_connection_cases. case_bool_decide as Htaken; simpl.
    + exists [WsClose ws2]. split; [done|].
      intros payload H%list_elem_of_singleton. discriminate.
    + eexists [_; _; _]. split; [by rewrite <- !app_assoc|].
      intros payload H. in_list H;
        try (injection H as H; congruence); try discriminate.
      by apply elem_of_nil in H.
  - intros [= <-]. exists [MapDelete id2]. split; [done|].
    intros payload H%list_elem_of_singleton. discriminate.
  - destruct message as [data|];
      [|intros [= <-]; exists []; split;
        [by rewrite app_nil_r|intros ? []%elem_of_nil]].
    intros [->|[[-> _]|(dest & peer & data' & payload' & _ & Hpeer & _ & _
                        & ->)]]%on_message_outcomes.
    + exists []. split; [by rewrite app_nil_r|intros ? []%elem_of_nil].
    + exists [WsTerminate ws2]. split; [done|].
      intros payload H%list_elem_of_singleton. discriminate.
    + exists [WsSend peer payload']. split; [done|].
      intros payload [= -> ->]%list_elem_of_singleton.
      by apply (I3 _ _ Hpeer id).
Qed.

Lemma fresh_check ws st :
  forallb (λ e, negb (bool_decide (event_sock e = Some ws))) (log st) = true →
  fresh ws st.
Proof.
  intros Hall e He%list_elem_of_In.
  rewrite forallb_forall in Hall. specialize (Hall _ He).
  by apply negb_true_iff, bool_decide_eq_false in Hall.
Qed.

(** The short run is a run. *)
Lemma short_run_reachable : reachable Run.history Run.after_close.
Proof.
  apply (reach_step [Connection A1 wsA; Connection B1 wsB]
           (on_connection B1 wsB (on_connection A1 wsA (mkState ∅ []))));
    [|apply adm_close|reflexivity].
  - apply (reach_step [Connection A1 wsA]
             (on_connection A1 wsA (mkState ∅ [])));
      [|apply adm_connection; by apply fresh_check|reflexivity].
    apply (reach_step [] (mkState ∅ []));
      [apply reach_start|apply adm_connection; by apply fresh_check
      |reflexivity].
  - apply list_elem_of_In. vm_compute. by left.
  - intros id' H. in_list H; try discriminate. by apply elem_of_nil in H.
Qed.

Lemma first_send_is_hello_witness :
  ∃ id, hello B1 = hello id ∧ MapSet id wsB ∈ log Run.after_close.
Proof.
  apply (first_send_is_hello Run.history Run.after_close wsB (hello B1));
    [apply short_run_reachable|reflexivity].
Defined.

Lemma no_socket_under_two_ids_witness : B1 = B1.
Proof.
  apply (no_socket_under_two_ids Run.history Run.after_close B1 B1 wsB);
    [apply short_run_reachable|reflexivity|reflexivity].
Defined.

Lemma closed_socket_not_stored_witness :
  connections Run.after_close !! A1 ≠ Some wsA.
Proof.
  apply (closed_socket_not_stored Run.history Run.after_close A1 wsA A1);
    [apply short_run_reachable|].
  apply list_elem_of_In. right. right. by left.
Defined.

Lemma no_send_after_close_witness :
  ∃ events, log Run.after_close = log Run.after_close ++ events
            ∧ ∀ payload, WsSend wsA payload ∉ events.
Proof.
  apply (no_send_after_close Run.history Run.after_close A1 wsA
           (Message B1 wsB (Some (candidate_to A1))) Run.after_close);
    [apply short_run_reachable| | |reflexivity].
  - apply list_elem_of_In. right. right. by left.
  - apply adm_message. apply list_elem_of_In. vm_compute. right. right. right.
    by left.
Defined.

End Throughout.

(** ** More instances *)

Section MoreInstances.

Import Scenario Edge.

(** A1 sends B1 a candidate, and an offer with one denylisted line. *)
Lemma candidate_run :
  on_message A1 wsA (Some (candidate_to B1)) registered
  = Normal (mkState (connections registered) [WsSend wsB (candidate_to A1)]).
Proof. reflexivity. Qed.

Lemma offer_run :
  on_message A1 wsA (Some (offer_to B1 (sdp_two_sections CRLF))) registered
  = Normal (mkState (connections registered)
              [WsSend wsB (offer_to A1 (sdp_two_sections_filtered CRLF))]).
Proof. by vm_compute. Qed.


Lemma send_goes_to_named_peer_witness :
  ∃ dest,
    get (candidate_to B1) (js "id") = Normal (VStr dest)
    ∧ connections registered !! dest = Some wsB
    ∧ get (candidate_to A1) (js "id") = Normal (VStr A1).
Proof.
  apply (send_goes_to_named_peer A1 wsA (candidate_to B1) registered
           (mkState (connections registered) [WsSend wsB (candidate_to A1)]));
    [apply candidate_run|reflexivity].
Defined.

Lemma forwarded_envelope_frame_witness :
  ∃ props props',
    offer_to B1 (sdp_two_sections CRLF) = VObj props
    ∧ offer_to A1 (sdp_two_sections_filtered CRLF) = VObj props'
    ∧ props'.*1 = props.*1
    ∧ ∀ k, k ≠ js "id" → k ≠ js "sdp" →
           lookup_prop k props' = lookup_prop k props.
Proof.
  apply (forwarded_envelope_frame A1 wsA
           (offer_to B1 (sdp_two_sections CRLF)) registered
           (mkState (connections registered)
              [WsSend wsB (offer_to A1 (sdp_two_sections_filtered CRLF))])
           wsB);
    [apply offer_run|reflexivity].
Defined.

Lemma forwarded_sdp_cut_down_witness :
  ∃ s', get (offer_to A1 (sdp_two_sections_filtered CRLF)) (js "sdp")
        = Normal (VStr s')
        ∧ cut_down (sdp_two_sections CRLF) s'
        ∧ s' `sublist_of` sdp_two_sections CRLF.
Proof.
  apply (forwarded_sdp_cut_down A1 wsA
           (offer_to B1 (sdp_two_sections CRLF)) (sdp_two_sections CRLF)
           registered
           (mkState (connections registered)
              [WsSend wsB (offer_to A1 (sdp_two_sections_filtered CRLF))])
           wsB);
    [reflexivity|apply offer_run|reflexivity].
Defined.

Lemma sender_terminated_iff_witness :
  on_message A1 wsA (Some (offer_to B1 sdp_datachannel)) registered
  = Normal (mkState (connections registered)
              (log registered ++ [WsTerminate wsA])).
Proof.
  apply (sender_terminated_iff A1 wsA
           [(js "id", VStr B1); (js "type", VStr (js "offer"));
            (js "sdp", VStr sdp_datachannel)] registered);
    [reflexivity|].
  split; [reflexivity|]. right. exists sdp_datachannel. split; [reflexivity|].
  apply Exists_cons_hd. by vm_compute.
Defined.

Lemma connect_then_close_restores_witness :
  connections (on_close (js "C1") (on_connection (js "C1") wsC registered))
  = connections registered.
Proof.
  apply (connect_then_close_restores (js "C1") wsC registered). reflexivity.
Defined.

Lemma connected_client_is_reachable_witness :
  ∃ payload,
    set (candidate_to (js "C1")) (js "id") (VStr A1) = Normal payload
    ∧ on_message A1 wsA (Some (candidate_to (js "C1")))
        (on_connection (js "C1") wsC registered)
      = Normal (mkState (connections (on_connection (js "C1") wsC registered))
                  (log (on_connection (js "C1") wsC registered)
                   ++ [WsSend wsC payload])).
Proof.
  apply (connected_client_is_reachable (js "C1") wsC A1 wsA
           (candidate_to (js "C1")) (VStr (js "candidate")) registered);
    [reflexivity|discriminate|reflexivity|reflexivity|reflexivity].
Defined.

Lemma closed_client_gets_nothing_witness :
  on_close B1 registered = on_close B1 registered
  ∨ on_close B1 registered
    = mkState (connections (on_close B1 registered))
        (log (on_close B1 registered) ++ [WsTerminate wsA]).
Proof.
  apply (closed_client_gets_nothing A1 wsA (candidate_to B1) B1 registered
           (on_close B1 registered)); reflexivity.
Defined.

Lemma entry_kept_until_close_witness :
  connections (on_close B1 registered) !! A1 = Some wsA.
Proof.
  apply (entry_kept_until_close (Close B1 wsB) A1 wsA registered
           (on_close B1 registered)); [reflexivity|discriminate|reflexivity].
Defined.

End MoreInstances.

(** ** What the peer reads *)

Section Wire.

Import Scenario Edge.

(** [1e400] is read as [Infinity], and two texts are read as one number. *)
Example number_out_of_range : JSON_number false 1 400 = infinity.
Proof. reflexivity. Qed.

Example number_texts_collapse :
  JSON_number false 9007199254740993 0 = JSON_number false 9007199254740992 0.
Proof. reflexivity. Qed.

(** An envelope of strings and numbers in range is read as it was sent. *)
Example plain_envelope_read_back :
  JSON_reparsed (candidate_to A1) = candidate_to A1.
Proof. reflexivity. Qed.

(** C3, as stated, fails.  A1 sends B1 a candidate whose [priority] was
    written [1e400].  It is not an offer and B1 is registered, so it is
    sent to B1, with [id] rewritten; but where the envelope of A1 has a
    number, B1 reads [null]. *)
Lemma other_field_not_preserved :
  get (candidate_out_of_range B1) (js "type")
  = Normal (VStr (js "candidate"))
  ∧ connections registered !! B1 = Some wsB
  ∧ on_message A1 wsA (Some (candidate_out_of_range B1)) registered
    = Normal (mkState (connections registered)
                [WsSend wsB (candidate_out_of_range A1)])
  ∧ get (candidate_out_of_range B1) (js "priority") = Normal (VNum infinity)
  ∧ get (JSON_reparsed (candidate_out_of_range A1)) (js "priority")
    = Normal VNull.
Proof. by vm_compute. Qed.

End Wire.
